(** * Elevator: vertical teleport between marker blocks

    A shallow embedding of [scripts/main.js].  The script runs once per
    tick; for every dimension, every player of that dimension and every
    allowed block type it looks at the block under the player's feet and,
    when that block has the allowed type, scans the column below (while
    sneaking) or above (while jumping) for the nearest block of the same
    type and teleports the player on top of it.

    Numbers.  JavaScript numbers are modelled exactly: a player location
    is a triple of rationals, [Math.floor] is [Qfloor], and every
    coordinate obtained from a floored one by adding an integer lives in
    [Z].  The landing position adds one half and is a rational again.

    Reads.  [player.location] is a getter of the host that yields a
    fresh vector at every read, so flooring that vector in place does not
    move the player; the inputs [isSneaking] and [isJumping] are read from
    the host each time the script mentions them.

    Host.  The world simulation ([world], [system], the player and block
    handles) is not part of the script; it is the interface [Host] below.
    [teleport] is the only call of the script that changes the host.

    Shared objects.  [playerStates] is a [Map] from player ids to mutable
    records; the record returned by [getPlayerState] is the one stored in
    the map, so a reference to it is modelled by its key and every field
    assignment is an update of the store at that key. *)

From Stdlib Require Import ZArith QArith Qround Sorted Lia.
From stdpp Require Import gmap strings list.

Local Open Scope Z_scope.

(** ** Data *)

Module Vector3.
Record t (A : Type) : Type := mk { x : A; y : A; z : A }.
Arguments mk {A} _ _ _.
Arguments x {A} _.
Arguments y {A} _.
Arguments z {A} _.

Definition eqb (p q : t Z) : bool :=
  (x p =? x q) && (y p =? y q) && (z p =? z q).
End Vector3.

(** Block-aligned positions and continuous positions. *)
Abbreviation BlockPos := (Vector3.t Z).
Abbreviation Location := (Vector3.t Q).

Record Block : Type := { typeId : string }.

Record PlayerState : Type :=
  { hasTeleportedDown : bool; hasTeleportedUp : bool }.

Record Config : Type :=
  { maximum : Z;
    miniLimit : Z;
    maxLimitOW : Z;
    maxLimitETC : Z;
    dimensions : list string }.

Definition allowedBlocks : list string :=
  [ "minecraft:diamond_block"; "minecraft:netherite_block";
    "minecraft:emerald_block"; "minecraft:lapis_block";
    "minecraft:gold_block"; "minecraft:iron_block";
    "minecraft:copper_block" ]%string.

Definition config : Config :=
  {| maximum := 100;
     miniLimit := -65;
     maxLimitOW := 340;
     maxLimitETC := 255;
     dimensions :=
       [ "minecraft:nether"; "minecraft:overworld"; "minecraft:the_end" ]%string |}.

(** ** The host interface *)

Class Host (World Player : Type) : Type :=
  { player_id : Player -> string;
    location : World -> Player -> Location;
    isSneaking : World -> Player -> bool;
    isJumping : World -> Player -> bool;
    getPlayers : World -> string -> list Player;
    getBlock : World -> string -> BlockPos -> option Block;
    teleport : World -> Player -> Location -> World }.

Inductive Direction : Type := Down | Up.

(** What the script asks of the host, in call order. *)
Inductive Event (Player : Type) : Type :=
| EvGetBlock (dimensionName : string) (checkPos : BlockPos)
| EvTeleport (d : Direction) (player : Player) (target : Location).
Arguments EvGetBlock {Player} _ _.
Arguments EvTeleport {Player} _ _ _.

(** [minDistance] starts at [Infinity]. *)
Inductive Distance : Type := Infinity | Finite (d : Z).

Definition dist_lt (distance : Z) (minDistance : Distance) : bool :=
  match minDistance with
  | Infinity => true
  | Finite m => distance <? m
  end.

(** The three locals of a scan, and the positions handed to [getBlock]. *)
Record Scan : Type :=
  { minDistance : Distance;
    nearestBlock : option BlockPos;
    foundBlock : bool;
    lookups : list BlockPos }.

Definition scan_init : Scan :=
  {| minDistance := Infinity; nearestBlock := None;
     foundBlock := false; lookups := [] |}.

(** [!block || block.typeId !== allowedBlock] *)
Definition notTarget (block : option Block) (allowedBlock : string) : bool :=
  match block with
  | None => true
  | Some b => negb (String.eqb (typeId b) allowedBlock)
  end.

(** [foundBlock && nearestBlock] *)
Definition scan_result (s : Scan) : option BlockPos :=
  if foundBlock s then nearestBlock s else None.

(** [nearestBlock.x += 0.5; nearestBlock.y += 1; nearestBlock.z += 0.5] *)
Definition landing (nearestBlock : BlockPos) : Location :=
  Vector3.mk (inject_Z (Vector3.x nearestBlock) + (1 # 2))%Q
             (inject_Z (Vector3.y nearestBlock) + 1)%Q
             (inject_Z (Vector3.z nearestBlock) + (1 # 2))%Q.

(** [pos.x = Math.floor(pos.x)] and so on. *)
Definition floorPos (l : Location) : BlockPos :=
  Vector3.mk (Qfloor (Vector3.x l)) (Qfloor (Vector3.y l)) (Qfloor (Vector3.z l)).

(** [const checkPos = { x: pos.x, y: pos.y + y, z: pos.z }] *)
Definition checkPosAt (pos : BlockPos) (y : Z) : BlockPos :=
  Vector3.mk (Vector3.x pos) (Vector3.y pos + y) (Vector3.z pos).

(** The values of [y] in [for (let y = -2; y >= -maximum; y--)]. *)
Definition downOffsets (cfg : Config) : list Z :=
  map (fun k => - Z.of_nat k) (seq 2 (Z.to_nat (maximum cfg) - 1)).

(** The values of [y] in [for (let y = 1; y <= maximum; y++)]. *)
Definition upOffsets (cfg : Config) : list Z :=
  map Z.of_nat (seq 1 (Z.to_nat (maximum cfg))).

(** The upper-bound test of the upward scan. *)
Definition aboveLimit (cfg : Config) (dimensionName : string) (checkY : Z) : bool :=
  (String.eqb dimensionName "minecraft:overworld" && (checkY >=? maxLimitOW cfg))
  || ((String.eqb dimensionName "minecraft:nether"
       || String.eqb dimensionName "minecraft:the_end")
      && (checkY >=? maxLimitETC cfg)).

(** [const belowPos = { x: pos.x, y: pos.y - 1, z: pos.z }] *)
Definition belowPosOf (pos : BlockPos) : BlockPos :=
  Vector3.mk (Vector3.x pos) (Vector3.y pos - 1) (Vector3.z pos).

(** ** The script *)

Section Script.
Context {World Player : Type} `{host : Host World Player}.
Variable cfg : Config.

Record State : Type :=
  { world : World;
    playerStates : gmap string PlayerState;
    trace : list (Event Player) }.

Definition log (evs : list (Event Player)) (st : State) : State :=
  {| world := world st; playerStates := playerStates st;
     trace := trace st ++ evs |}.

(** Reading the record behind a reference. *)
Definition stateOf (st : State) (ref : string) : PlayerState :=
  default {| hasTeleportedDown := false; hasTeleportedUp := false |}
          (playerStates st !! ref).

Definition set_hasTeleportedDown (ref : string) (b : bool) (st : State) : State :=
  {| world := world st;
     playerStates :=
       <[ref := {| hasTeleportedDown := b;
                   hasTeleportedUp := hasTeleportedUp (stateOf st ref) |}]>
         (playerStates st);
     trace := trace st |}.

Definition set_hasTeleportedUp (ref : string) (b : bool) (st : State) : State :=
  {| world := world st;
     playerStates :=
       <[ref := {| hasTeleportedDown := hasTeleportedDown (stateOf st ref);
                   hasTeleportedUp := b |}]>
         (playerStates st);
     trace := trace st |}.

(** Returns the store in which the entry exists; the reference to the
    record is [playerId] itself. *)
Definition getPlayerState (playerId : string) (st : State) : State :=
  match playerStates st !! playerId with
  | Some _ => st
  | None =>
      {| world := world st;
         playerStates :=
           <[playerId := {| hasTeleportedDown := false;
                            hasTeleportedUp := false |}]> (playerStates st);
         trace := trace st |}
  end.

Definition resetPlayerState (playerState : string) (player : Player)
           (st : State) : State :=
  let st :=
    if negb (isSneaking (world st) player)
    then set_hasTeleportedDown playerState false st else st in
  if negb (isJumping (world st) player)
  then set_hasTeleportedUp playerState false st else st.

(** One match: [foundBlock = true] and the running minimum. *)
Definition record_match (distance : Z) (checkPos : BlockPos) (s : Scan) : Scan :=
  if dist_lt distance (minDistance s)
  then {| minDistance := Finite distance; nearestBlock := Some checkPos;
          foundBlock := true; lookups := lookups s |}
  else {| minDistance := minDistance s; nearestBlock := nearestBlock s;
          foundBlock := true; lookups := lookups s |}.

Definition looked_up (checkPos : BlockPos) (s : Scan) : Scan :=
  {| minDistance := minDistance s; nearestBlock := nearestBlock s;
     foundBlock := foundBlock s; lookups := lookups s ++ [checkPos] |}.

(** The body of the downward loop over the remaining values of [y]. *)
Fixpoint scanDown (w : World) (dimension : string) (pos : BlockPos)
         (allowedBlock : string) (ys : list Z) (s : Scan) : Scan :=
  match ys with
  | [] => s
  | y :: ys' =>
      let checkPos := checkPosAt pos y in
      if Vector3.y checkPos <=? miniLimit cfg then s
      else
        let block := getBlock w dimension checkPos in
        let s := looked_up checkPos s in
        if notTarget block allowedBlock
        then scanDown w dimension pos allowedBlock ys' s
        else scanDown w dimension pos allowedBlock ys'
                      (record_match (Z.abs y) checkPos s)
  end.

(** The body of the upward loop over the remaining values of [y]. *)
Fixpoint scanUp (w : World) (dimension : string) (pos : BlockPos)
         (allowedBlock : string) (dimensionName : string)
         (ys : list Z) (s : Scan) : Scan :=
  match ys with
  | [] => s
  | y :: ys' =>
      let checkPos := checkPosAt pos y in
      if aboveLimit cfg dimensionName (Vector3.y checkPos) then s
      else
        let block := getBlock w dimension checkPos in
        let s := looked_up checkPos s in
        if notTarget block allowedBlock
        then scanUp w dimension pos allowedBlock dimensionName ys' s
        else scanUp w dimension pos allowedBlock dimensionName ys'
                    (record_match y checkPos s)
  end.

(** The scans as the specification's design note words them: return at
    the first match, no running minimum.  They are compared with
    [scanDown] and [scanUp] below and are not used by the script. *)
Fixpoint firstMatchDown (w : World) (dimension : string) (pos : BlockPos)
         (allowedBlock : string) (ys : list Z) : option BlockPos :=
  match ys with
  | [] => None
  | y :: ys' =>
      let checkPos := checkPosAt pos y in
      if Vector3.y checkPos <=? miniLimit cfg then None
      else if notTarget (getBlock w dimension checkPos) allowedBlock
           then firstMatchDown w dimension pos allowedBlock ys'
           else Some checkPos
  end.

Fixpoint firstMatchUp (w : World) (dimension : string) (pos : BlockPos)
         (allowedBlock : string) (dimensionName : string)
         (ys : list Z) : option BlockPos :=
  match ys with
  | [] => None
  | y :: ys' =>
      let checkPos := checkPosAt pos y in
      if aboveLimit cfg dimensionName (Vector3.y checkPos) then None
      else if notTarget (getBlock w dimension checkPos) allowedBlock
           then firstMatchUp w dimension pos allowedBlock dimensionName ys'
           else Some checkPos
  end.

(** Both loops are instances of one loop, over a stop test on the
    checked height and a distance on offsets.  [scanWith] is a proof
    device: [scanDown_scanWith] and [scanUp_scanWith] relate it to the
    two loops of the script. *)
Fixpoint scanWith (stop : Z -> bool) (dist : Z -> Z)
         (w : World) (dimension : string) (pos : BlockPos)
         (allowedBlock : string) (ys : list Z) (s : Scan) : Scan :=
  match ys with
  | [] => s
  | y :: ys' =>
      let checkPos := checkPosAt pos y in
      if stop (Vector3.y checkPos) then s
      else
        let block := getBlock w dimension checkPos in
        let s := looked_up checkPos s in
        if notTarget block allowedBlock
        then scanWith stop dist w dimension pos allowedBlock ys' s
        else scanWith stop dist w dimension pos allowedBlock ys'
                      (record_match (dist y) checkPos s)
  end.

Fixpoint firstWith (stop : Z -> bool)
         (w : World) (dimension : string) (pos : BlockPos)
         (allowedBlock : string) (ys : list Z) : option BlockPos :=
  match ys with
  | [] => None
  | y :: ys' =>
      let checkPos := checkPosAt pos y in
      if stop (Vector3.y checkPos) then None
      else if notTarget (getBlock w dimension checkPos) allowedBlock
           then firstWith stop w dimension pos allowedBlock ys'
           else Some checkPos
  end.

Definition stopDown (checkY : Z) : bool := checkY <=? miniLimit cfg.

(** Both scans behind one name, as [handleDownTeleport] and
    [handleUpTeleport] start them. *)
Definition scan (d : Direction) (w : World) (dimensionName : string)
           (pos : BlockPos) (allowedBlock : string) : Scan :=
  match d with
  | Down => scanDown w dimensionName pos allowedBlock (downOffsets cfg) scan_init
  | Up => scanUp w dimensionName pos allowedBlock dimensionName
                 (upOffsets cfg) scan_init
  end.

Definition firstMatch (d : Direction) (w : World) (dimensionName : string)
           (pos : BlockPos) (allowedBlock : string) : option BlockPos :=
  match d with
  | Down => firstMatchDown w dimensionName pos allowedBlock (downOffsets cfg)
  | Up => firstMatchUp w dimensionName pos allowedBlock dimensionName
                       (upOffsets cfg)
  end.

(** The offset [y] of the block at distance [dist] in direction [d]. *)
Definition offsetOf (d : Direction) (dist : Z) : Z :=
  match d with Down => - dist | Up => dist end.

(** Distance [dist] is within the step budget and the height bound of
    the scan in direction [d] from [pos]. *)
Definition inScan (d : Direction) (dimensionName : string) (pos : BlockPos)
           (dist : Z) : Prop :=
  match d with
  | Down => 2 <= dist <= maximum cfg
            /\ miniLimit cfg < Vector3.y pos - dist
  | Up => 1 <= dist <= maximum cfg
          /\ aboveLimit cfg dimensionName (Vector3.y pos + dist) = false
  end.

(** The input that triggers direction [d], and the cooldown flag of [d]. *)
Definition input_of (d : Direction) (w : World) (q : Player) : bool :=
  match d with Down => isSneaking w q | Up => isJumping w q end.

Definition flag_of (d : Direction) (ps : PlayerState) : bool :=
  match d with Down => hasTeleportedDown ps | Up => hasTeleportedUp ps end.

(** The first distance the scan in direction [d] visits. *)
Definition firstDistance (d : Direction) : Z :=
  match d with Down => 2 | Up => 1 end.

Definition isTarget (w : World) (dimensionName : string) (p : BlockPos)
           (allowedBlock : string) : bool :=
  negb (notTarget (getBlock w dimensionName p) allowedBlock).

(** The gate of [handleDownTeleport] is open. *)
Definition downOpen (q : Player) (r : string) (st : State) : Prop :=
  isSneaking (world st) q = true /\ isJumping (world st) q = false
  /\ hasTeleportedDown (stateOf st r) = false.

(** The gate of [handleUpTeleport] is open. *)
Definition upOpen (q : Player) (r : string) (st : State) : Prop :=
  isJumping (world st) q = true /\ isSneaking (world st) q = false
  /\ hasTeleportedUp (stateOf st r) = false.

Definition do_teleport (d : Direction) (player : Player) (target : Location)
           (st : State) : State :=
  {| world := teleport (world st) player target;
     playerStates := playerStates st;
     trace := trace st ++ [EvTeleport d player target] |}.

Definition handleDownTeleport (player : Player) (dimension : string)
           (pos : BlockPos) (allowedBlock : string) (playerState : string)
           (st : State) : State :=
  if negb (isSneaking (world st) player) || isJumping (world st) player
     || hasTeleportedDown (stateOf st playerState)
  then st
  else
    let s := scanDown (world st) dimension pos allowedBlock
                      (downOffsets cfg) scan_init in
    let st := log (map (EvGetBlock dimension) (lookups s)) st in
    match scan_result s with
    | Some nearestBlock =>
        let st := do_teleport Down player (landing nearestBlock) st in
        set_hasTeleportedDown playerState true st
    | None => st
    end.

Definition handleUpTeleport (player : Player) (dimension : string)
           (pos : BlockPos) (allowedBlock : string) (playerState : string)
           (dimensionName : string) (st : State) : State :=
  if negb (isJumping (world st) player) || isSneaking (world st) player
     || hasTeleportedUp (stateOf st playerState)
  then st
  else
    let s := scanUp (world st) dimension pos allowedBlock dimensionName
                    (upOffsets cfg) scan_init in
    let st := log (map (EvGetBlock dimension) (lookups s)) st in
    match scan_result s with
    | Some nearestBlock =>
        let st := do_teleport Up player (landing nearestBlock) st in
        set_hasTeleportedUp playerState true st
    | None => st
    end.

(** The body of the innermost loop of the tick callback. *)
Definition processBlockType (dimensionName : string) (player : Player)
           (allowedBlock : string) (st : State) : State :=
  let pos := floorPos (location (world st) player) in
  let playerState := player_id player in
  let st := getPlayerState playerState st in
  let st := resetPlayerState playerState player st in
  let belowPos := belowPosOf pos in
  let belowBlock := getBlock (world st) dimensionName belowPos in
  let st := log [EvGetBlock dimensionName belowPos] st in
  if notTarget belowBlock allowedBlock then st
  else
    let st := handleDownTeleport player dimensionName pos allowedBlock
                                 playerState st in
    handleUpTeleport player dimensionName pos allowedBlock playerState
                     dimensionName st.

Definition processPlayer (dimensionName : string) (player : Player)
           (st : State) : State :=
  fold_left (fun st allowedBlock =>
               processBlockType dimensionName player allowedBlock st)
            allowedBlocks st.

Definition processDimension (dimensionName : string) (st : State) : State :=
  fold_left (fun st player => processPlayer dimensionName player st)
            (getPlayers (world st) dimensionName) st.

(** The callback given to [system.runInterval]. *)
Definition tick (st : State) : State :=
  fold_left (fun st dimensionName => processDimension dimensionName st)
            (dimensions cfg) st.

(** Between two ticks the host moves on: each tick starts from the
    world the host presents then, with the store the script kept. *)
Definition enter (w : World) (st : State) : State :=
  {| world := w; playerStates := playerStates st; trace := trace st |}.

Definition run (ws : list World) (st : State) : State :=
  fold_left (fun st w => tick (enter w st)) ws st.

(** The trace of [st'] is the trace of [st] and the events [evs]. *)
Definition extends_by (evs : list (Event Player)) (st st' : State) : Prop :=
  trace st' = trace st ++ evs.

End Script.

Arguments State World Player : clear implicits.

(** ** A concrete host

    A finite world used to run the script on explicit inputs: a list of
    placed blocks and a list of players.  A player handle is the player's
    id; [teleport] moves the player at once. *)

Module Sim.

Record SimPlayer : Type :=
  { sp_id : string;
    sp_dimension : string;
    sp_location : Location;
    sp_isSneaking : bool;
    sp_isJumping : bool }.

Record SimWorld : Type :=
  { sim_blocks : list (string * BlockPos * string);
    sim_players : list SimPlayer }.

Definition find_player (w : SimWorld) (p : string) : option SimPlayer :=
  List.find (fun sp => String.eqb (sp_id sp) p) (sim_players w).

Definition sim_location (w : SimWorld) (p : string) : Location :=
  match find_player w p with
  | Some sp => sp_location sp
  | None => Vector3.mk 0%Q 0%Q 0%Q
  end.

Definition sim_isSneaking (w : SimWorld) (p : string) : bool :=
  match find_player w p with
  | Some sp => sp_isSneaking sp
  | None => false
  end.

Definition sim_isJumping (w : SimWorld) (p : string) : bool :=
  match find_player w p with
  | Some sp => sp_isJumping sp
  | None => false
  end.

Definition sim_getPlayers (w : SimWorld) (dimensionName : string) : list string :=
  map sp_id
      (filter (fun sp => String.eqb (sp_dimension sp) dimensionName = true)
              (sim_players w)).

Definition sim_getBlock (w : SimWorld) (dimensionName : string)
           (pos : BlockPos) : option Block :=
  match List.find (fun e => String.eqb (fst (fst e)) dimensionName
                            && Vector3.eqb (snd (fst e)) pos)
                  (sim_blocks w) with
  | Some e => Some {| typeId := snd e |}
  | None => None
  end.

Definition move (p : string) (target : Location) (sp : SimPlayer) : SimPlayer :=
  if String.eqb (sp_id sp) p
  then {| sp_id := sp_id sp; sp_dimension := sp_dimension sp;
          sp_location := target;
          sp_isSneaking := sp_isSneaking sp; sp_isJumping := sp_isJumping sp |}
  else sp.

Definition sim_teleport (w : SimWorld) (p : string) (target : Location) : SimWorld :=
  {| sim_blocks := sim_blocks w;
     sim_players := map (move p target) (sim_players w) |}.

#[global] Instance sim_host : Host SimWorld string :=
  {| player_id := fun p => p;
     location := sim_location;
     isSneaking := sim_isSneaking;
     isJumping := sim_isJumping;
     getPlayers := sim_getPlayers;
     getBlock := sim_getBlock;
     teleport := sim_teleport |}.

Definition start (w : SimWorld) : State SimWorld string :=
  {| world := w; playerStates := ∅; trace := [] |}.

Definition at_ (a b c : Z) : BlockPos := Vector3.mk a b c.

Definition standing (id dimensionName : string) (a b c : Z)
           (sneaking jumping : bool) : SimPlayer :=
  {| sp_id := id; sp_dimension := dimensionName;
     sp_location := Vector3.mk (inject_Z a) (inject_Z b) (inject_Z c);
     sp_isSneaking := sneaking; sp_isJumping := jumping |}.

(** Scenario A: sneaking at (0,10,0) on a diamond block, with diamond
    blocks at y=5 and y=2 below. *)
Definition worldA : SimWorld :=
  {| sim_blocks :=
       [ ("minecraft:overworld", at_ 0 9 0, "minecraft:diamond_block");
         ("minecraft:overworld", at_ 0 5 0, "minecraft:diamond_block");
         ("minecraft:overworld", at_ 0 2 0, "minecraft:diamond_block") ]%string;
     sim_players :=
       [ standing "steve" "minecraft:overworld" 0 10 0 true false ] |}.

(** Scenario B: the configuration of the script with lower bound 6. *)
Definition configB : Config :=
  {| maximum := maximum config; miniLimit := 6;
     maxLimitOW := maxLimitOW config; maxLimitETC := maxLimitETC config;
     dimensions := dimensions config |}.

(** Scenarios C and D: jumping at (0,330,0) on a diamond block, with a
    diamond block at y=338 above, in the dimension named [dim]. *)
Definition worldCD (dim : string) : SimWorld :=
  {| sim_blocks :=
       [ (dim, at_ 0 329 0, "minecraft:diamond_block");
         (dim, at_ 0 338 0, "minecraft:diamond_block") ]%string;
     sim_players := [ standing "steve" dim 0 330 0 false true ] |}.

(** A player in mid-air, neither sneaking nor jumping. *)
Definition worldAir : SimWorld :=
  {| sim_blocks := [];
     sim_players :=
       [ standing "alex" "minecraft:overworld" 0 10 0 false false ] |}.

(** The store after an earlier tick in which [id] teleported both ways. *)
Definition after_teleports (id : string) (w : SimWorld) : State SimWorld string :=
  {| world := w;
     playerStates :=
       {[ id := {| hasTeleportedDown := true; hasTeleportedUp := true |} ]};
     trace := [] |}.

(** Three diamond blocks below a sneaking player, at distances 3, 5 and 8. *)
Definition worldThree : SimWorld :=
  {| sim_blocks :=
       [ ("minecraft:overworld", at_ 0 9 0, "minecraft:diamond_block");
         ("minecraft:overworld", at_ 0 7 0, "minecraft:diamond_block");
         ("minecraft:overworld", at_ 0 5 0, "minecraft:diamond_block");
         ("minecraft:overworld", at_ 0 2 0, "minecraft:diamond_block") ]%string;
     sim_players :=
       [ standing "steve" "minecraft:overworld" 0 10 0 true false ] |}.

(** Sneaking and jumping at once, on a diamond block, with diamond
    blocks below and above. *)
Definition worldBoth : SimWorld :=
  {| sim_blocks :=
       [ ("minecraft:overworld", at_ 0 9 0, "minecraft:diamond_block");
         ("minecraft:overworld", at_ 0 5 0, "minecraft:diamond_block");
         ("minecraft:overworld", at_ 0 14 0, "minecraft:diamond_block") ]%string;
     sim_players :=
       [ standing "steve" "minecraft:overworld" 0 10 0 true true ] |}.

End Sim.

Definition direction_eqb (a b : Direction) : bool :=
  match a, b with
  | Down, Down | Up, Up => true
  | _, _ => false
  end.

Definition teleports {Player : Type} (tr : list (Event Player))
  : list (Direction * Player * Location) :=
  omap (fun e => match e with
                 | EvTeleport d p t => Some (d, p, t)
                 | EvGetBlock _ _ => None
                 end) tr.


Section Counting.
Context {World Player : Type} `{host : Host World Player}.

Fixpoint count_events (f : Event Player -> bool) (tr : list (Event Player)) : nat :=
  match tr with
  | [] => O
  | e :: tr' => ((if f e then 1 else 0) + count_events f tr')%nat
  end.

(** A teleport of the player whose id is [pid]. *)
Definition isTeleportOf (pid : string) (e : Event Player) : bool :=
  match e with
  | EvTeleport _ q _ => String.eqb (player_id q) pid
  | EvGetBlock _ _ => false
  end.

(** A teleport of that player in direction [d]. *)
Definition isTeleportOfDir (d : Direction) (pid : string) (e : Event Player) : bool :=
  match e with
  | EvTeleport d' q _ => direction_eqb d' d && String.eqb (player_id q) pid
  | EvGetBlock _ _ => false
  end.
End Counting.

(** ** What the script knows about one player

    [view] collects everything the later handling of player [p] depends
    on: the two inputs, the record behind the player's id and the number
    of events counted by [f] so far. *)

Section View.
Context {World Player : Type} `{host : Host World Player}.
Variables (f : Event Player -> bool) (p : Player).

Definition view (st : State World Player) : bool * bool * PlayerState * nat :=
  (isSneaking (world st) p, isJumping (world st) p,
   stateOf st (player_id p), count_events f (trace st)).

(** Direction [d] has fired while its input is held: the flag is set. *)
Definition Locked (d : Direction) (c : nat) (st : State World Player) : Prop :=
  input_of d (world st) p = true
  /\ flag_of d (stateOf st (player_id p)) = true
  /\ (count_events f (trace st) <= c)%nat.

(** The input of direction [d] is held; at most one counted event more
    than [c], and then the direction is locked. *)
Definition Held (d : Direction) (c : nat) (st : State World Player) : Prop :=
  input_of d (world st) p = true
  /\ ((count_events f (trace st) <= c)%nat \/ Locked d (S c) st).

(** Both inputs or neither: both gates are closed. *)
Definition Closed (c : nat) (st : State World Player) : Prop :=
  isSneaking (world st) p = isJumping (world st) p
  /\ (count_events f (trace st) <= c)%nat.
End View.

(** ** The positions a loop visits

    The checked positions of a loop over the offsets [ys], up to the
    first one that fails the stop test; the blocks of the world play no
    part in it. *)
Fixpoint visited (stop : Z -> bool) (pos : BlockPos) (ys : list Z) : list BlockPos :=
  match ys with
  | [] => []
  | y :: ys' =>
      if stop (Vector3.y (checkPosAt pos y)) then []
      else checkPosAt pos y :: visited stop pos ys'
  end.

(** ** Footprints of an operation *)

Section Footprint.
Context {World Player : Type}.

(** What one operation does to the store: an entry that exists still
    exists afterwards, and entries other than that of [r] are not
    touched. *)
Definition store_step (r : string) (st st' : State World Player) : Prop :=
  (forall k, is_Some (playerStates st !! k) -> is_Some (playerStates st' !! k))
  /\ (forall k, k <> r -> playerStates st' !! k = playerStates st !! k).

(** The events added between [st] and [st'] hold teleports of the player
    [q] only. *)
Definition own_events (q : Player) (st st' : State World Player) : Prop :=
  exists evs, extends_by evs st st'
              /\ forall d q' t, In (EvTeleport d q' t) evs -> q' = q.
End Footprint.

(** * Facts about the scans *)

Lemma Vector3_eqb_eq (p q : BlockPos) : Vector3.eqb p q = true <-> p = q.
Proof.
  destruct p as [a b c], q as [a' b' c']; unfold Vector3.eqb; cbn.
  rewrite !andb_true_iff, !Z.eqb_eq. split.
  - intros [[-> ->] ->]; reflexivity.
  - intros [= -> -> ->]; auto.
Qed.

Lemma notTarget_absent (allowedBlock : string) : notTarget None allowedBlock = true.
Proof. reflexivity. Qed.

Lemma notTarget_mismatch (b : Block) (allowedBlock : string) :
  typeId b <> allowedBlock -> notTarget (Some b) allowedBlock = true.
Proof.
  intros Hne. cbn. apply negb_true_iff, String.eqb_neq. exact Hne.
Qed.

Lemma notTarget_false (block : option Block) (allowedBlock : string) :
  notTarget block allowedBlock = false <->
  exists b, block = Some b /\ typeId b = allowedBlock.
Proof.
  destruct block as [b|]; cbn.
  - rewrite negb_false_iff, String.eqb_eq. split.
    + intros E. exists b. auto.
    + intros (b' & [= <-] & E). exact E.
  - split; [discriminate | intros (b & [=] & _)].
Qed.

Lemma aboveLimit_mono (cfg : Config) (dimensionName : string) (a b : Z) :
  a <= b -> aboveLimit cfg dimensionName b = false ->
  aboveLimit cfg dimensionName a = false.
Proof.
  unfold aboveLimit. intros Hab.
  destruct (String.eqb dimensionName "minecraft:overworld");
    destruct (String.eqb dimensionName "minecraft:nether"
              || String.eqb dimensionName "minecraft:the_end"); cbn;
    rewrite ?orb_false_r, ?orb_false_iff; rewrite ?Z.geb_leb, ?Z.leb_gt; lia.
Qed.

Section ScanFacts.
Context {World Player : Type} `{host : Host World Player}.
Variable cfg : Config.
Variables (w : World) (dimension : string) (pos : BlockPos)
          (allowedBlock : string).

Lemma scanDown_scanWith (ys : list Z) (s : Scan) :
  scanDown cfg w dimension pos allowedBlock ys s
  = scanWith (stopDown cfg) Z.abs w dimension pos allowedBlock ys s.
Proof.
  revert s. induction ys as [|y ys IH]; intros s; cbn; [reflexivity|].
  unfold stopDown at 1. destruct (_ <=? _); [reflexivity|].
  destruct (notTarget _ _); apply IH.
Qed.

Lemma scanUp_scanWith (dimensionName : string) (ys : list Z) (s : Scan) :
  scanUp cfg w dimension pos allowedBlock dimensionName ys s
  = scanWith (aboveLimit cfg dimensionName) (fun y => y)
             w dimension pos allowedBlock ys s.
Proof.
  revert s. induction ys as [|y ys IH]; intros s; cbn; [reflexivity|].
  destruct (aboveLimit _ _ _); [reflexivity|].
  destruct (notTarget _ _); apply IH.
Qed.

Lemma firstMatchDown_firstWith (ys : list Z) :
  firstMatchDown cfg w dimension pos allowedBlock ys
  = firstWith (stopDown cfg) w dimension pos allowedBlock ys.
Proof.
  induction ys as [|y ys IH]; cbn; [reflexivity|].
  unfold stopDown at 1. destruct (_ <=? _); [reflexivity|].
  destruct (notTarget _ _); [apply IH | reflexivity].
Qed.

Lemma firstMatchUp_firstWith (dimensionName : string) (ys : list Z) :
  firstMatchUp cfg w dimension pos allowedBlock dimensionName ys
  = firstWith (aboveLimit cfg dimensionName) w dimension pos allowedBlock ys.
Proof.
  induction ys as [|y ys IH]; cbn; [reflexivity|].
  destruct (aboveLimit _ _ _); [reflexivity|].
  destruct (notTarget _ _); [apply IH | reflexivity].
Qed.

Section Generic.
Variables (stop : Z -> bool) (dist : Z -> Z).

Let loop := scanWith stop dist w dimension pos allowedBlock.
Let first := firstWith stop w dimension pos allowedBlock.

(** Once a match at distance [m] is recorded, offsets that are not
    nearer leave the recorded block alone. *)
Lemma scanWith_settled (ys : list Z) (s : Scan) (m : Z) :
  foundBlock s = true -> minDistance s = Finite m ->
  Forall (fun y => m <= dist y) ys ->
  scan_result (loop ys s) = nearestBlock s.
Proof.
  revert s. induction ys as [|y ys IH]; intros s Hf Hm Hall; cbn.
  - unfold scan_result. rewrite Hf. reflexivity.
  - inversion Hall as [|? ? Hy Hys]; subst.
    destruct (stop _).
    + unfold scan_result. rewrite Hf. reflexivity.
    + destruct (notTarget _ _).
      * rewrite IH; auto.
      * rewrite IH; auto.
        -- unfold record_match; cbn. rewrite Hm; cbn.
           destruct (dist y <? m) eqn:E; [apply Z.ltb_lt in E; lia|].
           reflexivity.
        -- unfold record_match; cbn. destruct (dist_lt _ _); reflexivity.
        -- unfold record_match; cbn. rewrite Hm; cbn.
           destruct (dist y <? m) eqn:E; [apply Z.ltb_lt in E; lia|].
           reflexivity.
Qed.

(** Visiting offsets in order of distance, the running minimum is the
    first match. *)
Lemma scanWith_first (ys : list Z) (s : Scan) :
  StronglySorted (fun a b => dist a < dist b) ys ->
  foundBlock s = false -> minDistance s = Infinity ->
  scan_result (loop ys s) = first ys.
Proof.
  intros Hs. revert s.
  induction Hs as [|y ys Hs IH Hall]; intros s Hf Hm; cbn.
  - unfold scan_result. rewrite Hf. reflexivity.
  - destruct (stop _).
    + unfold scan_result. rewrite Hf. reflexivity.
    + destruct (notTarget _ _).
      * apply IH; auto.
      * unfold loop.
        rewrite (scanWith_settled ys _ (dist y)).
        -- unfold record_match; cbn. rewrite Hm. reflexivity.
        -- unfold record_match; cbn. rewrite Hm. reflexivity.
        -- unfold record_match; cbn. rewrite Hm. reflexivity.
        -- eapply List.Forall_impl; [|exact Hall]. cbn; intros; lia.
Qed.

(** What a first match is. *)
Lemma firstWith_Some (ys : list Z) (p : BlockPos) :
  first ys = Some p ->
  exists y, In y ys /\ p = checkPosAt pos y
            /\ stop (Vector3.y p) = false
            /\ notTarget (getBlock w dimension p) allowedBlock = false.
Proof.
  unfold first.
  induction ys as [|y ys IH]; cbn [firstWith In]; [intros [=]|].
  intros E.
  destruct (stop (Vector3.y (checkPosAt pos y))) eqn:Es; [discriminate E|].
  destruct (notTarget (getBlock w dimension (checkPosAt pos y)) allowedBlock)
    eqn:En.
  - destruct (IH E) as (y' & Hin & Hrest). exists y'. auto.
  - injection E as <-. exists y. auto.
Qed.

Lemma firstWith_skip (l1 l2 : list Z) :
  Forall (fun y => stop (Vector3.y (checkPosAt pos y)) = false
                   /\ notTarget (getBlock w dimension (checkPosAt pos y))
                                allowedBlock = true) l1 ->
  first (l1 ++ l2) = first l2.
Proof.
  unfold first.
  induction 1 as [|y l1 [Hs Hn] _ IH]; cbn [firstWith app]; [reflexivity|].
  rewrite Hs, Hn. exact IH.
Qed.

(** Every position handed to [getBlock] passed the stop test. *)
Lemma scanWith_lookups (ys : list Z) (s : Scan) :
  Forall (fun p => stop (Vector3.y p) = false) (lookups s) ->
  Forall (fun p => stop (Vector3.y p) = false) (lookups (loop ys s)).
Proof.
  revert s. induction ys as [|y ys IH]; intros s Hl; cbn; [exact Hl|].
  destruct (stop _) eqn:Es; [exact Hl|].
  assert (Hl' : Forall (fun p => stop (Vector3.y p) = false)
                       (lookups s ++ [checkPosAt pos y])).
  { apply Forall_app. split; [exact Hl|]. constructor; [exact Es|constructor]. }
  destruct (notTarget _ _); apply IH; [exact Hl'|].
  unfold record_match. destruct (dist_lt _ _); exact Hl'.
Qed.
End Generic.

End ScanFacts.

(** ** The offsets of the two loops *)

Lemma map_seq_sorted (f : nat -> Z) (dist : Z -> Z) (a n : nat) :
  (forall i j : nat, (i < j)%nat -> dist (f i) < dist (f j)) ->
  StronglySorted (fun u v => dist u < dist v) (map f (seq a n)).
Proof.
  intros Hmono. revert a.
  induction n as [|n IH]; intros a; cbn; constructor; [apply IH|].
  apply List.Forall_forall. intros v Hv.
  apply List.in_map_iff in Hv as (j & <- & Hj).
  apply List.in_seq in Hj. apply Hmono. lia.
Qed.

Lemma seq_split (a n k : nat) :
  (a <= k < a + n)%nat ->
  seq a n = seq a (k - a) ++ k :: seq (S k) (a + n - S k).
Proof.
  intros Hk.
  replace n with ((k - a) + S (a + n - S k))%nat at 1 by lia.
  rewrite List.seq_app. cbn. replace (a + (k - a))%nat with k by lia.
  reflexivity.
Qed.

Lemma downOffsets_sorted (cfg : Config) :
  StronglySorted (fun u v => Z.abs u < Z.abs v) (downOffsets cfg).
Proof. apply map_seq_sorted. intros; lia. Qed.

Lemma upOffsets_sorted (cfg : Config) :
  StronglySorted (fun u v => u < v) (upOffsets cfg).
Proof. apply (map_seq_sorted Z.of_nat (fun y => y)). intros; lia. Qed.

Lemma In_downOffsets (cfg : Config) (y : Z) :
  In y (downOffsets cfg) <-> 2 <= - y <= maximum cfg.
Proof.
  unfold downOffsets. rewrite List.in_map_iff. split.
  - intros (k & <- & Hk). apply List.in_seq in Hk. lia.
  - intros Hy. exists (Z.to_nat (- y)). split; [lia|].
    apply List.in_seq. lia.
Qed.

Lemma In_upOffsets (cfg : Config) (y : Z) :
  In y (upOffsets cfg) <-> 1 <= y <= maximum cfg.
Proof.
  unfold upOffsets. rewrite List.in_map_iff. split.
  - intros (k & <- & Hk). apply List.in_seq in Hk. lia.
  - intros Hy. exists (Z.to_nat y). split; [lia|].
    apply List.in_seq. lia.
Qed.

Section ScanResults.
Context {World Player : Type} `{host : Host World Player}.
Variable cfg : Config.
Variables (w : World) (dimensionName : string) (pos : BlockPos)
          (allowedBlock : string).

Lemma scan_down_first :
  scan_result (scan cfg Down w dimensionName pos allowedBlock)
  = firstWith (stopDown cfg) w dimensionName pos allowedBlock (downOffsets cfg).
Proof.
  cbn [scan]. rewrite scanDown_scanWith.
  apply scanWith_first; [apply downOffsets_sorted | reflexivity..].
Qed.

Lemma scan_up_first :
  scan_result (scan cfg Up w dimensionName pos allowedBlock)
  = firstWith (aboveLimit cfg dimensionName) w dimensionName pos allowedBlock
              (upOffsets cfg).
Proof.
  cbn [scan]. rewrite scanUp_scanWith.
  apply (scanWith_first _ _ _ _ _ (fun y => y));
    [apply upOffsets_sorted | reflexivity..].
Qed.

(** The first match of a loop over [f a, f (a+1), ...] is at [f k] when
    nothing before [k] stops the loop or matches. *)
Lemma firstWith_at (stop : Z -> bool) (f : nat -> Z) (a n k : nat) :
  (a <= k < a + n)%nat ->
  (forall i : nat, (a <= i < k)%nat ->
     stop (Vector3.y (checkPosAt pos (f i))) = false
     /\ notTarget (getBlock w dimensionName (checkPosAt pos (f i)))
                  allowedBlock = true) ->
  stop (Vector3.y (checkPosAt pos (f k))) = false ->
  notTarget (getBlock w dimensionName (checkPosAt pos (f k))) allowedBlock
  = false ->
  firstWith stop w dimensionName pos allowedBlock (map f (seq a n))
  = Some (checkPosAt pos (f k)).
Proof.
  intros Hk Hbefore Hstop Hmatch.
  rewrite (seq_split a n k Hk), List.map_app.
  rewrite firstWith_skip.
  - cbn [map firstWith]. rewrite Hstop, Hmatch. reflexivity.
  - apply List.Forall_forall. intros v Hv.
    apply List.in_map_iff in Hv as (i & <- & Hi).
    apply List.in_seq in Hi. apply Hbefore. lia.
Qed.

End ScanResults.

Lemma isTarget_notTarget {World Player : Type} `{host : Host World Player}
      (w : World) (dimensionName : string) (p : BlockPos) (allowedBlock : string)
      (b : bool) :
  isTarget w dimensionName p allowedBlock = b ->
  notTarget (getBlock w dimensionName p) allowedBlock = negb b.
Proof. unfold isTarget. intros <-. rewrite negb_involutive. reflexivity. Qed.

Section NearestMatch.
Context {World Player : Type} `{host : Host World Player}.
Variable cfg : Config.
Variables (w : World) (dimensionName : string) (pos : BlockPos)
          (allowedBlock : string).
Variables (d : Direction) (d1 : Z).
Hypothesis Hin : inScan cfg d dimensionName pos d1.
Hypothesis Hmatch :
  isTarget w dimensionName (checkPosAt pos (offsetOf d d1)) allowedBlock = true.
Hypothesis Hnearer :
  forall k, firstDistance d <= k < d1 ->
    isTarget w dimensionName (checkPosAt pos (offsetOf d k)) allowedBlock = false.

(** The scan returns the nearest match in its range. *)
Lemma scan_nearest :
  scan_result (scan cfg d w dimensionName pos allowedBlock)
  = Some (checkPosAt pos (offsetOf d d1)).
Proof.
  destruct d; cbn [inScan offsetOf firstDistance] in *.
  - destruct Hin as [Hd Hlow].
    rewrite scan_down_first. unfold downOffsets.
    replace (- d1) with (- Z.of_nat (Z.to_nat d1)) by lia.
    apply (firstWith_at w dimensionName pos allowedBlock (stopDown cfg)
                        (fun k => - Z.of_nat k) 2 _ (Z.to_nat d1)).
    + lia.
    + intros i Hi. split.
      * unfold stopDown. cbn. apply Z.leb_gt. lia.
      * rewrite (isTarget_notTarget _ _ _ _ false); [reflexivity|].
        replace (- Z.of_nat i) with (- (Z.of_nat i)) by reflexivity.
        apply (Hnearer (Z.of_nat i)). lia.
    + unfold stopDown. cbn. apply Z.leb_gt. lia.
    + replace (- Z.of_nat (Z.to_nat d1)) with (- d1) by lia.
      rewrite (isTarget_notTarget _ _ _ _ true); [reflexivity|exact Hmatch].
  - destruct Hin as [Hd Hup].
    rewrite scan_up_first. unfold upOffsets.
    replace (checkPosAt pos d1)
      with (checkPosAt pos (Z.of_nat (Z.to_nat d1))) by (f_equal; lia).
    apply (firstWith_at w dimensionName pos allowedBlock
                        (aboveLimit cfg dimensionName) Z.of_nat 1 _ (Z.to_nat d1)).
    + lia.
    + intros i Hi. split.
      * cbn. apply (aboveLimit_mono cfg dimensionName _ (Vector3.y pos + d1));
          [lia | exact Hup].
      * rewrite (isTarget_notTarget _ _ _ _ false); [reflexivity|].
        apply (Hnearer (Z.of_nat i)). lia.
    + cbn. replace (Z.of_nat (Z.to_nat d1)) with d1 by lia. exact Hup.
    + replace (Z.of_nat (Z.to_nat d1)) with d1 by lia.
      rewrite (isTarget_notTarget _ _ _ _ true); [reflexivity|exact Hmatch].
Qed.
End NearestMatch.

(** * Facts about the handlers *)

Section HandlerFacts.
Context {World Player : Type} `{host : Host World Player}.
Variable cfg : Config.

#[local] Abbreviation State := (State World Player).

Lemma stateOf_getPlayerState (r r' : string) (st : State) :
  stateOf (getPlayerState r st) r' = stateOf st r'.
Proof.
  unfold getPlayerState, stateOf.
  destruct (playerStates st !! r) eqn:E; [reflexivity|]. cbn.
  destruct (decide (r = r')) as [<-|Hne].
  - rewrite lookup_insert_eq, E. reflexivity.
  - rewrite lookup_insert_ne by exact Hne. reflexivity.
Qed.

Lemma stateOf_set_down (r r' : string) (b : bool) (st : State) :
  stateOf (set_hasTeleportedDown r b st) r'
  = if decide (r = r')
    then {| hasTeleportedDown := b;
            hasTeleportedUp := hasTeleportedUp (stateOf st r) |}
    else stateOf st r'.
Proof.
  unfold set_hasTeleportedDown, stateOf at 1. cbn.
  destruct (decide (r = r')) as [<-|Hne].
  - rewrite lookup_insert_eq. reflexivity.
  - rewrite lookup_insert_ne by exact Hne. reflexivity.
Qed.

Lemma stateOf_set_up (r r' : string) (b : bool) (st : State) :
  stateOf (set_hasTeleportedUp r b st) r'
  = if decide (r = r')
    then {| hasTeleportedDown := hasTeleportedDown (stateOf st r);
            hasTeleportedUp := b |}
    else stateOf st r'.
Proof.
  unfold set_hasTeleportedUp, stateOf at 1. cbn.
  destruct (decide (r = r')) as [<-|Hne].
  - rewrite lookup_insert_eq. reflexivity.
  - rewrite lookup_insert_ne by exact Hne. reflexivity.
Qed.

(** The reset rule on the record behind [r]. *)
Lemma stateOf_reset (r r' : string) (q : Player) (st : State) :
  stateOf (resetPlayerState r q st) r'
  = if decide (r = r')
    then {| hasTeleportedDown :=
              hasTeleportedDown (stateOf st r) && isSneaking (world st) q;
            hasTeleportedUp :=
              hasTeleportedUp (stateOf st r) && isJumping (world st) q |}
    else stateOf st r'.
Proof.
  unfold resetPlayerState.
  destruct (isSneaking (world st) q) eqn:Es; cbn [negb];
    destruct (isJumping _ q) eqn:Ej; cbn [negb world set_hasTeleportedDown] in *;
    rewrite ?Ej; cbn [negb];
    rewrite ?stateOf_set_up, ?stateOf_set_down;
    destruct (decide (r = r')) as [<-|Hne];
    rewrite ?decide_True by reflexivity;
    rewrite ?andb_true_r, ?andb_false_r;
    try reflexivity;
    destruct (stateOf st r); reflexivity.
Qed.

Lemma world_reset (r : string) (q : Player) (st : State) :
  world (resetPlayerState r q st) = world st.
Proof.
  unfold resetPlayerState.
  destruct (negb (isSneaking (world st) q)); cbn;
    destruct (negb (isJumping _ q)); reflexivity.
Qed.

Lemma trace_reset (r : string) (q : Player) (st : State) :
  trace (resetPlayerState r q st) = trace st.
Proof.
  unfold resetPlayerState.
  destruct (negb (isSneaking (world st) q)); cbn;
    destruct (negb (isJumping _ q)); reflexivity.
Qed.

Lemma world_getPlayerState (r : string) (st : State) :
  world (getPlayerState r st) = world st.
Proof. unfold getPlayerState. destruct (_ !! _); reflexivity. Qed.

Lemma trace_getPlayerState (r : string) (st : State) :
  trace (getPlayerState r st) = trace st.
Proof. unfold getPlayerState. destruct (_ !! _); reflexivity. Qed.

(** The three ways through [handleDownTeleport]. *)
Lemma handleDownTeleport_cases (q : Player) (dimension : string)
      (pos : BlockPos) (allowedBlock r : string) (st : State) :
  let s := scanDown cfg (world st) dimension pos allowedBlock
                    (downOffsets cfg) scan_init in
  let st' := handleDownTeleport cfg q dimension pos allowedBlock r st in
  (~ downOpen q r st /\ st' = st)
  \/ (downOpen q r st /\ scan_result s = None
      /\ st' = log (map (EvGetBlock dimension) (lookups s)) st)
  \/ (downOpen q r st /\ exists b, scan_result s = Some b
      /\ st' = set_hasTeleportedDown r true
                 (do_teleport Down q (landing b)
                    (log (map (EvGetBlock dimension) (lookups s)) st))).
Proof.
  cbn zeta. unfold handleDownTeleport, downOpen.
  destruct (isSneaking (world st) q), (isJumping (world st) q),
    (hasTeleportedDown (stateOf st r)); cbn [negb orb];
    try (left; split; [intros (? & ? & ?); discriminate | reflexivity]).
  right. destruct (scan_result _) as [b|].
  - right. split; [auto|]. exists b. auto.
  - left. auto.
Qed.

(** The three ways through [handleUpTeleport]. *)
Lemma handleUpTeleport_cases (q : Player) (dimension : string)
      (pos : BlockPos) (allowedBlock r dimensionName : string) (st : State) :
  let s := scanUp cfg (world st) dimension pos allowedBlock dimensionName
                  (upOffsets cfg) scan_init in
  let st' := handleUpTeleport cfg q dimension pos allowedBlock r
                              dimensionName st in
  (~ upOpen q r st /\ st' = st)
  \/ (upOpen q r st /\ scan_result s = None
      /\ st' = log (map (EvGetBlock dimension) (lookups s)) st)
  \/ (upOpen q r st /\ exists b, scan_result s = Some b
      /\ st' = set_hasTeleportedUp r true
                 (do_teleport Up q (landing b)
                    (log (map (EvGetBlock dimension) (lookups s)) st))).
Proof.
  cbn zeta. unfold handleUpTeleport, upOpen.
  destruct (isJumping (world st) q), (isSneaking (world st) q),
    (hasTeleportedUp (stateOf st r)); cbn [negb orb];
    try (left; split; [intros (? & ? & ?); discriminate | reflexivity]).
  right. destruct (scan_result _) as [b|].
  - right. split; [auto|]. exists b. auto.
  - left. auto.
Qed.

End HandlerFacts.

(** * One iteration, seen from one player *)

Lemma count_events_app {Player : Type} (f : Event Player -> bool)
      (a b : list (Event Player)) :
  count_events f (a ++ b) = (count_events f a + count_events f b)%nat.
Proof. induction a as [|e a IH]; cbn; [reflexivity|]. rewrite IH. lia. Qed.

Section PlayerView.
Context {World Player : Type} `{host : Host World Player}.
Variable cfg : Config.
#[local] Abbreviation State := (State World Player).

Variable p : Player.
Variable f : Event Player -> bool.
Hypothesis Hf : forall e, f e = true -> isTeleportOf (player_id p) e = true.
Hypothesis Hinj : forall q : Player, player_id q = player_id p -> q = p.
Hypothesis Hstable : forall (w : World) (q : Player) (t : Location),
    isSneaking (teleport w q t) p = isSneaking w p
    /\ isJumping (teleport w q t) p = isJumping w p.

Lemma f_lookup (dimension : string) (c : BlockPos) :
  f (EvGetBlock dimension c) = false.
Proof.
  destruct (f _) eqn:E; [|reflexivity]. apply Hf in E. discriminate E.
Qed.

Lemma f_other (d : Direction) (q : Player) (t : Location) :
  player_id q <> player_id p -> f (EvTeleport d q t) = false.
Proof.
  intros Hne. destruct (f _) eqn:E; [|reflexivity].
  apply Hf in E. cbn in E. apply String.eqb_eq in E. contradiction.
Qed.

Lemma count_lookups (dimension : string) (l : list BlockPos) :
  count_events f (map (EvGetBlock dimension) l) = O.
Proof.
  induction l as [|c l IH]; cbn; [reflexivity|].
  rewrite f_lookup, IH. reflexivity.
Qed.

Lemma view_log_lookups (dimension : string) (l : list BlockPos) (st : State) :
  view f p (log (map (EvGetBlock dimension) l) st) = view f p st.
Proof.
  unfold view, stateOf; cbn.
  rewrite count_events_app, count_lookups, Nat.add_0_r. reflexivity.
Qed.

Lemma view_getPlayerState (r : string) (st : State) :
  view f p (getPlayerState r st) = view f p st.
Proof.
  unfold view.
  rewrite stateOf_getPlayerState, world_getPlayerState, trace_getPlayerState.
  reflexivity.
Qed.

(** *** Another player's iteration *)

Lemma view_handleDown_other (q : Player) (dimension : string) (pos : BlockPos)
      (allowedBlock : string) (st : State) :
  player_id q <> player_id p ->
  view f p (handleDownTeleport cfg q dimension pos allowedBlock (player_id q) st)
  = view f p st.
Proof.
  intros Hne.
  destruct (handleDownTeleport_cases cfg q dimension pos allowedBlock
              (player_id q) st) as [[_ ->]|[(_ & _ & ->)|(_ & b & _ & ->)]].
  - reflexivity.
  - apply view_log_lookups.
  - rewrite <- (view_log_lookups dimension
                 (lookups (scanDown cfg (world st) dimension pos allowedBlock
                                    (downOffsets cfg) scan_init)) st).
    unfold view. rewrite stateOf_set_down, decide_False by exact Hne.
    cbn [world trace set_hasTeleportedDown do_teleport].
    destruct (Hstable (world (log (map (EvGetBlock dimension)
                (lookups (scanDown cfg (world st) dimension pos allowedBlock
                                   (downOffsets cfg) scan_init))) st))
                      q (landing b)) as [-> ->].
    rewrite count_events_app. cbn [count_events].
    rewrite f_other by exact Hne. rewrite !Nat.add_0_r. reflexivity.
Qed.

Lemma view_handleUp_other (q : Player) (dimension : string) (pos : BlockPos)
      (allowedBlock dimensionName : string) (st : State) :
  player_id q <> player_id p ->
  view f p (handleUpTeleport cfg q dimension pos allowedBlock (player_id q)
                             dimensionName st)
  = view f p st.
Proof.
  intros Hne.
  destruct (handleUpTeleport_cases cfg q dimension pos allowedBlock
              (player_id q) dimensionName st)
    as [[_ ->]|[(_ & _ & ->)|(_ & b & _ & ->)]].
  - reflexivity.
  - apply view_log_lookups.
  - rewrite <- (view_log_lookups dimension
                 (lookups (scanUp cfg (world st) dimension pos allowedBlock
                                  dimensionName (upOffsets cfg) scan_init)) st).
    unfold view. rewrite stateOf_set_up, decide_False by exact Hne.
    cbn [world trace set_hasTeleportedUp do_teleport].
    destruct (Hstable (world (log (map (EvGetBlock dimension)
                (lookups (scanUp cfg (world st) dimension pos allowedBlock
                                 dimensionName (upOffsets cfg) scan_init))) st))
                      q (landing b)) as [-> ->].
    rewrite count_events_app. cbn [count_events].
    rewrite f_other by exact Hne. rewrite !Nat.add_0_r. reflexivity.
Qed.

Lemma view_other (q : Player) (dimensionName allowedBlock : string) (st : State) :
  player_id q <> player_id p ->
  view f p (processBlockType cfg dimensionName q allowedBlock st) = view f p st.
Proof.
  intros Hne. unfold processBlockType.
  set (pos := floorPos (location (world st) q)).
  set (st2 := resetPlayerState (player_id q) q (getPlayerState (player_id q) st)).
  assert (H2 : view f p st2 = view f p st).
  { rewrite <- (view_getPlayerState (player_id q) st).
    unfold view, st2.
    rewrite stateOf_reset, decide_False by exact Hne.
    rewrite world_reset, trace_reset. reflexivity. }
  set (st3 := log [EvGetBlock dimensionName (belowPosOf pos)] st2).
  assert (H3 : view f p st3 = view f p st).
  { rewrite <- H2. apply (view_log_lookups dimensionName [belowPosOf pos]). }
  destruct (notTarget _ _); [exact H3|].
  rewrite view_handleUp_other, view_handleDown_other by exact Hne.
  exact H3.
Qed.

Lemma view_inv (st : State) (a b : bool) (c : PlayerState) (n : nat) :
  view f p st = (a, b, c, n) ->
  isSneaking (world st) p = a /\ isJumping (world st) p = b
  /\ stateOf st (player_id p) = c /\ count_events f (trace st) = n.
Proof. unfold view. intros [= <- <- <- <-]. auto. Qed.

(** *** The player's own iteration *)

Lemma view_handleDown_own (dimension : string) (pos : BlockPos)
      (allowedBlock : string) (st : State) :
  let st' := handleDownTeleport cfg p dimension pos allowedBlock
                                (player_id p) st in
  view f p st' = view f p st
  \/ (downOpen p (player_id p) st
      /\ exists n', (n' <= S (count_events f (trace st)))%nat
         /\ view f p st'
            = (isSneaking (world st) p, isJumping (world st) p,
               {| hasTeleportedDown := true;
                  hasTeleportedUp := hasTeleportedUp (stateOf st (player_id p)) |},
               n')).
Proof.
  cbn zeta.
  destruct (handleDownTeleport_cases cfg p dimension pos allowedBlock
              (player_id p) st) as [[_ ->]|[(_ & _ & ->)|(Hopen & b & _ & ->)]].
  - left. reflexivity.
  - left. apply view_log_lookups.
  - right. split; [exact Hopen|].
    eexists. split; [|unfold view].
    2:{ rewrite stateOf_set_down, decide_True by reflexivity.
        cbn [world trace set_hasTeleportedDown do_teleport log].
        destruct (Hstable (world st) p (landing b)) as [-> ->].
        reflexivity. }
    rewrite !count_events_app, count_lookups. cbn [count_events].
    destruct (f _); lia.
Qed.

Lemma view_handleUp_own (dimension : string) (pos : BlockPos)
      (allowedBlock dimensionName : string) (st : State) :
  let st' := handleUpTeleport cfg p dimension pos allowedBlock
                              (player_id p) dimensionName st in
  view f p st' = view f p st
  \/ (upOpen p (player_id p) st
      /\ exists n', (n' <= S (count_events f (trace st)))%nat
         /\ view f p st'
            = (isSneaking (world st) p, isJumping (world st) p,
               {| hasTeleportedDown := hasTeleportedDown (stateOf st (player_id p));
                  hasTeleportedUp := true |},
               n')).
Proof.
  cbn zeta.
  destruct (handleUpTeleport_cases cfg p dimension pos allowedBlock
              (player_id p) dimensionName st)
    as [[_ ->]|[(_ & _ & ->)|(Hopen & b & _ & ->)]].
  - left. reflexivity.
  - left. apply view_log_lookups.
  - right. split; [exact Hopen|].
    eexists. split; [|unfold view].
    2:{ rewrite stateOf_set_up, decide_True by reflexivity.
        cbn [world trace set_hasTeleportedUp do_teleport log].
        destruct (Hstable (world st) p (landing b)) as [-> ->].
        reflexivity. }
    rewrite !count_events_app, count_lookups. cbn [count_events].
    destruct (f _); lia.
Qed.

(** One iteration for [p]: the reset rule, then at most one of the two
    directions fires, and only through its open gate. *)
Lemma view_own (dimensionName allowedBlock : string) (st : State) :
  let sn := isSneaking (world st) p in
  let jp := isJumping (world st) p in
  let ps := stateOf st (player_id p) in
  let n := count_events f (trace st) in
  let fd0 := hasTeleportedDown ps && sn in
  let fu0 := hasTeleportedUp ps && jp in
  let st' := processBlockType cfg dimensionName p allowedBlock st in
  view f p st'
  = (sn, jp, {| hasTeleportedDown := fd0; hasTeleportedUp := fu0 |}, n)
  \/ (sn = true /\ jp = false /\ fd0 = false
      /\ exists n', (n' <= S n)%nat
         /\ view f p st'
            = (sn, jp, {| hasTeleportedDown := true; hasTeleportedUp := fu0 |}, n'))
  \/ (jp = true /\ sn = false /\ fu0 = false
      /\ exists n', (n' <= S n)%nat
         /\ view f p st'
            = (sn, jp, {| hasTeleportedDown := fd0; hasTeleportedUp := true |}, n')).
Proof.
  cbn zeta. unfold processBlockType.
  set (pos := floorPos (location (world st) p)).
  set (st2 := resetPlayerState (player_id p) p (getPlayerState (player_id p) st)).
  set (st3 := log [EvGetBlock dimensionName (belowPosOf pos)] st2).
  assert (H3 : view f p st3
               = (isSneaking (world st) p, isJumping (world st) p,
                  {| hasTeleportedDown :=
                       hasTeleportedDown (stateOf st (player_id p))
                       && isSneaking (world st) p;
                     hasTeleportedUp :=
                       hasTeleportedUp (stateOf st (player_id p))
                       && isJumping (world st) p |},
                  count_events f (trace st))).
  { unfold st3.
    rewrite (view_log_lookups dimensionName [belowPosOf pos]).
    unfold view, st2.
    rewrite stateOf_reset, decide_True by reflexivity.
    rewrite world_reset, trace_reset.
    rewrite stateOf_getPlayerState, world_getPlayerState, trace_getPlayerState.
    reflexivity. }
  destruct (notTarget _ _); [left; exact H3|].
  destruct (view_inv _ _ _ _ _ H3) as (Hs3 & Hj3 & Hp3 & Hn3).
  set (st4 := handleDownTeleport cfg p dimensionName pos allowedBlock
                                 (player_id p) st3).
  destruct (view_handleDown_own dimensionName pos allowedBlock st3)
    as [H4|((Hsn & Hjp & Hfd) & n4 & Hn4 & H4)]; fold st4 in H4.
  - (* down did not fire *)
    destruct (view_handleUp_own dimensionName pos allowedBlock dimensionName st4)
      as [H5|((Hjp & Hsn & Hfu) & n5 & Hn5 & H5)].
    + left. rewrite H5, H4. exact H3.
    + right. right.
      rewrite H3 in H4.
      destruct (view_inv _ _ _ _ _ H4) as (Hs4 & Hj4 & Hp4 & Hn4).
      rewrite Hs4, Hj4, Hp4, Hn4 in *. cbn in Hfu.
      repeat split; try assumption.
      exists n5. split; [exact Hn5|]. exact H5.
  - (* down fired: the gate of up is closed *)
    rewrite Hs3, Hj3, Hp3, Hn3 in *. cbn in Hfd.
    destruct (view_inv _ _ _ _ _ H4) as (Hs4 & Hj4 & Hp4 & Hn4').
    destruct (view_handleUp_own dimensionName pos allowedBlock dimensionName st4)
      as [H5|((Hjp5 & _) & _)].
    + right. left. repeat split; try assumption.
      exists n4. split; [exact Hn4|].
      rewrite H5. unfold view. rewrite Hs4, Hj4, Hp4, Hn4'. cbn. reflexivity.
    + rewrite Hj4, Hjp in Hjp5. discriminate Hjp5.
Qed.

(** *** Invariants of an iteration *)

Lemma Locked_of_view (d : Direction) (c : nat) (st : State)
      (a b : bool) (ps : PlayerState) (n : nat) :
  view f p st = (a, b, ps, n) ->
  Locked f p d c st
  <-> (match d with Down => a | Up => b end) = true
      /\ flag_of d ps = true /\ (n <= c)%nat.
Proof.
  intros Hv. apply view_inv in Hv as (<- & <- & <- & <-).
  unfold Locked. destruct d; reflexivity.
Qed.

Lemma Held_of_view (d : Direction) (c : nat) (st : State)
      (a b : bool) (ps : PlayerState) (n : nat) :
  view f p st = (a, b, ps, n) ->
  Held f p d c st
  <-> (match d with Down => a | Up => b end) = true
      /\ ((n <= c)%nat \/ (flag_of d ps = true /\ (n <= S c)%nat)).
Proof.
  intros Hv. unfold Held. rewrite (Locked_of_view d (S c) st a b ps n Hv).
  apply view_inv in Hv as (<- & <- & <- & <-).
  destruct d; cbn [input_of]; tauto.
Qed.

Lemma Closed_of_view (c : nat) (st : State)
      (a b : bool) (ps : PlayerState) (n : nat) :
  view f p st = (a, b, ps, n) ->
  Closed f p c st <-> a = b /\ (n <= c)%nat.
Proof.
  intros Hv. apply view_inv in Hv as (<- & <- & <- & <-).
  unfold Closed. reflexivity.
Qed.

Ltac by_view st dimensionName q allowedBlock :=
  destruct (decide (player_id q = player_id p)) as [E|Hne];
  [ apply Hinj in E; subst q;
    pose proof (view_own dimensionName allowedBlock st) as Hown;
    cbn zeta in Hown;
    pose proof (eq_refl : view f p st = _) as Hv0; unfold view at 2 in Hv0;
    destruct (isSneaking (world st) p), (isJumping (world st) p),
      (stateOf st (player_id p)) as [[] []];
    cbn [hasTeleportedDown hasTeleportedUp] in Hown;
    destruct Hown as [Hv|[(? & ? & ? & n' & ? & Hv)|(? & ? & ? & n' & ? & Hv)]]
  | pose proof (view_other q dimensionName allowedBlock st Hne) as Hv;
    pose proof (eq_refl : view f p st = _) as Hv0; unfold view at 2 in Hv0;
    rewrite Hv0 in Hv ].

Lemma Locked_step (d : Direction) (c : nat) (dimensionName : string)
      (q : Player) (allowedBlock : string) (st : State) :
  Locked f p d c st ->
  Locked f p d c (processBlockType cfg dimensionName q allowedBlock st).
Proof.
  by_view st dimensionName q allowedBlock;
    rewrite (Locked_of_view _ _ _ _ _ _ _ Hv0),
            (Locked_of_view _ _ _ _ _ _ _ Hv);
    destruct d; cbn in *;
    intuition (try discriminate; try lia).
Qed.

Lemma Held_step (d : Direction) (c : nat) (dimensionName : string)
      (q : Player) (allowedBlock : string) (st : State) :
  Held f p d c st ->
  Held f p d c (processBlockType cfg dimensionName q allowedBlock st).
Proof.
  by_view st dimensionName q allowedBlock;
    rewrite (Held_of_view _ _ _ _ _ _ _ Hv0),
            (Held_of_view _ _ _ _ _ _ _ Hv);
    destruct d; cbn in *;
    intuition (try discriminate; try lia).
Qed.

Lemma Closed_step (c : nat) (dimensionName : string)
      (q : Player) (allowedBlock : string) (st : State) :
  Closed f p c st ->
  Closed f p c (processBlockType cfg dimensionName q allowedBlock st).
Proof.
  by_view st dimensionName q allowedBlock;
    rewrite (Closed_of_view _ _ _ _ _ _ Hv0),
            (Closed_of_view _ _ _ _ _ _ Hv);
    cbn in *; intuition (try discriminate; try lia).
Qed.

End PlayerView.

(** * Lifting an invariant of the iteration to the tick *)

Section Lifting.
Context {World Player : Type} `{host : Host World Player}.
Variable cfg : Config.
#[local] Abbreviation State := (State World Player).

Variable I : State -> Prop.
Hypothesis Hstep :
  forall (dimensionName : string) (q : Player) (allowedBlock : string) (st : State),
    I st -> I (processBlockType cfg dimensionName q allowedBlock st).

Lemma processPlayer_preserves (dimensionName : string) (q : Player) (st : State) :
  I st -> I (processPlayer cfg dimensionName q st).
Proof.
  unfold processPlayer. revert st.
  induction allowedBlocks as [|ab l IH]; intros st Hst; cbn; [exact Hst|].
  apply IH, Hstep, Hst.
Qed.

Lemma processDimension_preserves (dimensionName : string) (st : State) :
  I st -> I (processDimension cfg dimensionName st).
Proof.
  unfold processDimension.
  generalize (getPlayers (world st) dimensionName). intros l. revert st.
  induction l as [|q l IH]; intros st Hst; cbn; [exact Hst|].
  apply IH, processPlayer_preserves, Hst.
Qed.

Lemma tick_preserves (st : State) : I st -> I (tick cfg st).
Proof.
  unfold tick. revert st.
  induction (dimensions cfg) as [|dn l IH]; intros st Hst; cbn; [exact Hst|].
  apply IH, processDimension_preserves, Hst.
Qed.
End Lifting.

Lemma run_preserves {World Player : Type} `{host : Host World Player}
      (cfg : Config) (J : State World Player -> Prop) (ws : list World) :
  (forall w st, In w ws -> J st -> J (tick cfg (enter w st))) ->
  forall st, J st -> J (run cfg ws st).
Proof.
  unfold run. induction ws as [|w ws IH]; intros Hw st Hst; cbn; [exact Hst|].
  apply IH.
  - intros w' st' Hin. apply Hw. right. exact Hin.
  - apply Hw; [left; reflexivity | exact Hst].
Qed.

(** ** The trace only grows *)

Section Extension.
Context {World Player : Type} `{host : Host World Player}.
Variable cfg : Config.
#[local] Abbreviation State := (State World Player).

Lemma extends_handleDown (q : Player) (dimension : string) (pos : BlockPos)
      (allowedBlock r : string) (st0 st : State) :
  (exists evs, extends_by evs st0 st) ->
  exists evs, extends_by evs st0
                (handleDownTeleport cfg q dimension pos allowedBlock r st).
Proof.
  intros [evs Hevs]. unfold extends_by in *.
  destruct (handleDownTeleport_cases cfg q dimension pos allowedBlock r st)
    as [[_ ->]|[(_ & _ & ->)|(_ & b & _ & ->)]]; cbn; rewrite Hevs.
  - exists evs. reflexivity.
  - eexists. rewrite <- app_assoc. reflexivity.
  - eexists. rewrite <- !app_assoc. reflexivity.
Qed.

Lemma extends_handleUp (q : Player) (dimension : string) (pos : BlockPos)
      (allowedBlock r dimensionName : string) (st0 st : State) :
  (exists evs, extends_by evs st0 st) ->
  exists evs, extends_by evs st0
                (handleUpTeleport cfg q dimension pos allowedBlock r
                                  dimensionName st).
Proof.
  intros [evs Hevs]. unfold extends_by in *.
  destruct (handleUpTeleport_cases cfg q dimension pos allowedBlock r
                                   dimensionName st)
    as [[_ ->]|[(_ & _ & ->)|(_ & b & _ & ->)]]; cbn; rewrite Hevs.
  - exists evs. reflexivity.
  - eexists. rewrite <- app_assoc. reflexivity.
  - eexists. rewrite <- !app_assoc. reflexivity.
Qed.

Lemma extends_step (st0 : State) (dimensionName : string) (q : Player)
      (allowedBlock : string) (st : State) :
  (exists evs, extends_by evs st0 st) ->
  exists evs, extends_by evs st0
                (processBlockType cfg dimensionName q allowedBlock st).
Proof.
  intros [evs Hevs]. unfold processBlockType.
  set (pos := floorPos (location (world st) q)).
  set (st3 := log _ _).
  assert (H3 : exists evs', extends_by evs' st0 st3).
  { eexists. unfold extends_by, st3. cbn.
    rewrite trace_reset, trace_getPlayerState, Hevs, <- app_assoc.
    reflexivity. }
  destruct (notTarget _ _); [exact H3|].
  apply extends_handleUp, extends_handleDown, H3.
Qed.

Lemma extends_tick (st : State) : exists evs, extends_by evs st (tick cfg st).
Proof.
  apply (tick_preserves cfg (fun st' => exists evs, extends_by evs st st')).
  - apply extends_step.
  - exists []. unfold extends_by. rewrite app_nil_r. reflexivity.
Qed.

Lemma extends_run (ws : list World) (st : State) :
  exists evs, extends_by evs st (run cfg ws st).
Proof.
  apply (run_preserves cfg (fun st' => exists evs, extends_by evs st st')).
  - intros w st' _ [evs Hevs].
    apply (tick_preserves cfg (fun st'' => exists evs, extends_by evs st st'')).
    + apply extends_step.
    + exists evs. exact Hevs.
  - exists []. unfold extends_by. rewrite app_nil_r. reflexivity.
Qed.
End Extension.

(** * The concrete host obeys the host laws *)

Lemma sim_find_move (w : Sim.SimWorld) (q : string) (t : Location) (p : string) :
  Sim.find_player (Sim.sim_teleport w q t) p
  = option_map (Sim.move q t) (Sim.find_player w p).
Proof.
  unfold Sim.find_player, Sim.sim_teleport; cbn.
  induction (Sim.sim_players w) as [|sp l IH]; cbn; [reflexivity|].
  assert (E : Sim.sp_id (Sim.move q t sp) = Sim.sp_id sp).
  { unfold Sim.move. destruct (String.eqb _ q); reflexivity. }
  rewrite E. destruct (String.eqb (Sim.sp_id sp) p); [reflexivity | exact IH].
Qed.

Lemma sim_inputs_stable (p : string) (w : Sim.SimWorld) (q : string) (t : Location) :
  isSneaking (teleport w q t) p = isSneaking w p
  /\ isJumping (teleport w q t) p = isJumping w p.
Proof.
  cbn. unfold Sim.sim_isSneaking, Sim.sim_isJumping.
  rewrite sim_find_move.
  destruct (Sim.find_player w p) as [sp|]; cbn; [|auto].
  unfold Sim.move. destruct (String.eqb _ q); auto.
Qed.

Lemma sim_id_inj (p q : string) : player_id q = player_id p -> q = p.
Proof. intros E. exact E. Qed.

(** * The scans *)

Lemma aboveLimit_false (cfg : Config) (dimensionName : string) (checkY : Z) :
  aboveLimit cfg dimensionName checkY = false ->
  (dimensionName = "minecraft:overworld"%string -> checkY < maxLimitOW cfg)
  /\ (dimensionName = "minecraft:nether"%string
      \/ dimensionName = "minecraft:the_end"%string -> checkY < maxLimitETC cfg).
Proof.
  unfold aboveLimit. intros Hf.
  apply orb_false_iff in Hf as [Hf1 Hf2]. split.
  - intros ->. cbn in Hf1. rewrite Z.geb_leb in Hf1.
    apply Z.leb_gt in Hf1. exact Hf1.
  - intros [-> | ->]; cbn in Hf2; rewrite Z.geb_leb in Hf2;
      apply Z.leb_gt in Hf2; exact Hf2.
Qed.

(** C9.  The scan of the script, which keeps a running minimum over all
    the offsets it visits, returns what the scan that stops at the first
    match returns: the same position, or nothing, for every direction,
    origin, block type and world.  The reason is that the offsets are
    visited in strictly increasing distance, each one once. *)
Theorem running_minimum_is_first_match :
  forall (World Player : Type) (host : Host World Player) (cfg : Config),
    (forall (d : Direction) (w : World) (dimensionName : string)
            (pos : BlockPos) (allowedBlock : string),
        scan_result (scan cfg d w dimensionName pos allowedBlock)
        = firstMatch cfg d w dimensionName pos allowedBlock)
    /\ StronglySorted (fun u v => Z.abs u < Z.abs v) (downOffsets cfg)
    /\ StronglySorted (fun u v => u < v) (upOffsets cfg).
Proof.
  intros World Player host cfg. split; [|split].
  - intros [] w dimensionName pos allowedBlock.
    + rewrite scan_down_first. cbn [firstMatch].
      rewrite firstMatchDown_firstWith. reflexivity.
    + rewrite scan_up_first. cbn [firstMatch].
      rewrite firstMatchUp_firstWith. reflexivity.
  - apply downOffsets_sorted.
  - apply upOffsets_sorted.
Qed.

(** C1.  Nearest match.  In either direction, when two blocks of the
    target type lie on the scanned axis at distances d1 < d2, both within
    the step budget and the height bound, and they are the matching
    blocks of the configuration (nothing nearer than d1 matches), the
    scan returns the block at distance d1.  Scenario A: the sneaking
    player at (0,10,0) on a diamond block, with diamond blocks at y=5 and
    y=2, is teleported to (0.5,6,0.5), and that is the only teleport of
    the tick. *)
Theorem nearest_match_returned :
  (forall (World Player : Type) (host : Host World Player) (cfg : Config)
          (d : Direction) (w : World) (dimensionName : string)
          (pos : BlockPos) (allowedBlock : string) (d1 d2 : Z),
      d1 < d2 ->
      inScan cfg d dimensionName pos d1 ->
      inScan cfg d dimensionName pos d2 ->
      isTarget w dimensionName (checkPosAt pos (offsetOf d d1)) allowedBlock = true ->
      isTarget w dimensionName (checkPosAt pos (offsetOf d d2)) allowedBlock = true ->
      (forall k, firstDistance d <= k < d1 ->
         isTarget w dimensionName (checkPosAt pos (offsetOf d k)) allowedBlock
         = false) ->
      scan_result (scan cfg d w dimensionName pos allowedBlock)
      = Some (checkPosAt pos (offsetOf d d1)))
  /\ teleports (trace (tick config (Sim.start Sim.worldA)))
     = [ (Down, "steve"%string, Vector3.mk (1 # 2)%Q 6%Q (1 # 2)%Q) ]
  /\ location (world (tick config (Sim.start Sim.worldA))) "steve"%string
     = Vector3.mk (1 # 2)%Q 6%Q (1 # 2)%Q.
Proof.
  split; [|split].
  - intros World Player host cfg d w dimensionName pos allowedBlock d1 d2
           _ Hin1 _ Hm1 _ Hnearer.
    apply scan_nearest; assumption.
  - vm_compute. reflexivity.
  - vm_compute. reflexivity.
Qed.

Lemma nearest_match_witness :
  scan_result (scan config Down Sim.worldA "minecraft:overworld"
                    (Sim.at_ 0 10 0) "minecraft:diamond_block")
  = Some (Sim.at_ 0 5 0).
Proof.
  apply (proj1 nearest_match_returned Sim.SimWorld string Sim.sim_host config
               Down Sim.worldA "minecraft:overworld"%string (Sim.at_ 0 10 0)
               "minecraft:diamond_block"%string 5 8).
  - lia.
  - cbn. lia.
  - cbn. lia.
  - reflexivity.
  - reflexivity.
  - intros k Hk. cbn in Hk.
    assert (Hc : k = 2 \/ k = 3 \/ k = 4) by lia.
    destruct Hc as [-> | [-> | ->]]; reflexivity.
Defined.

(** C5.  Lower bound.  A downward scan never hands a position at or below
    the lower bound to the block lookup, and never returns one: it stops
    at the first checked height that is at or below the bound.  Scenario
    B: with lower bound 6, the player of scenario A is not teleported. *)
Theorem down_bound_respected :
  (forall (World Player : Type) (host : Host World Player) (cfg : Config)
          (w : World) (dimensionName : string) (pos : BlockPos)
          (allowedBlock : string),
      Forall (fun c => miniLimit cfg < Vector3.y c)
             (lookups (scan cfg Down w dimensionName pos allowedBlock))
      /\ forall b,
           scan_result (scan cfg Down w dimensionName pos allowedBlock) = Some b ->
           miniLimit cfg < Vector3.y b)
  /\ miniLimit Sim.configB = 6
  /\ teleports (trace (tick Sim.configB (Sim.start Sim.worldA))) = []
  /\ world (tick Sim.configB (Sim.start Sim.worldA)) = Sim.worldA
  /\ playerStates (tick Sim.configB (Sim.start Sim.worldA)) !! "steve"%string
     = Some {| hasTeleportedDown := false; hasTeleportedUp := false |}.
Proof.
  split; [|repeat split; vm_compute; reflexivity].
  intros World Player host cfg w dimensionName pos allowedBlock. split.
  - cbn [scan]. rewrite scanDown_scanWith.
    eapply List.Forall_impl;
      [|apply scanWith_lookups; constructor].
    cbn. unfold stopDown. intros c Hc. apply Z.leb_gt in Hc. exact Hc.
  - intros b Hb. rewrite scan_down_first in Hb.
    apply firstWith_Some in Hb as (y & _ & _ & Hstop & _).
    unfold stopDown in Hstop. apply Z.leb_gt in Hstop. exact Hstop.
Qed.

Lemma down_bound_witness : miniLimit config < Vector3.y (Sim.at_ 0 5 0).
Proof.
  apply (proj2 (proj1 down_bound_respected Sim.SimWorld string Sim.sim_host
                      config Sim.worldA "minecraft:overworld"%string
                      (Sim.at_ 0 10 0) "minecraft:diamond_block"%string)).
  reflexivity.
Defined.

(** C6.  Upper bound.  An upward scan never hands a position at or beyond
    the upper bound of its dimension to the block lookup, and never
    returns one.  The bound is [maxLimitOW] (340) in the overworld and
    [maxLimitETC] (255) in the nether and the end.  Scenarios C and D: the
    jumping player at y=330 with a matching block at y=338 is teleported
    in the overworld and not in the other two dimensions. *)
Theorem up_bound_respected :
  (forall (World Player : Type) (host : Host World Player) (cfg : Config)
          (w : World) (dimensionName : string) (pos : BlockPos)
          (allowedBlock : string),
      Forall (fun c =>
                (dimensionName = "minecraft:overworld"%string ->
                 Vector3.y c < maxLimitOW cfg)
                /\ (dimensionName = "minecraft:nether"%string
                    \/ dimensionName = "minecraft:the_end"%string ->
                    Vector3.y c < maxLimitETC cfg))
             (lookups (scan cfg Up w dimensionName pos allowedBlock))
      /\ forall b,
           scan_result (scan cfg Up w dimensionName pos allowedBlock) = Some b ->
           (dimensionName = "minecraft:overworld"%string ->
            Vector3.y b < maxLimitOW cfg)
           /\ (dimensionName = "minecraft:nether"%string
               \/ dimensionName = "minecraft:the_end"%string ->
               Vector3.y b < maxLimitETC cfg))
  /\ maxLimitOW config = 340 /\ maxLimitETC config = 255
  /\ teleports (trace (tick config (Sim.start (Sim.worldCD "minecraft:overworld"))))
     = [ (Up, "steve"%string, Vector3.mk (1 # 2)%Q 339%Q (1 # 2)%Q) ]
  /\ teleports (trace (tick config (Sim.start (Sim.worldCD "minecraft:nether"))))
     = []
  /\ teleports (trace (tick config (Sim.start (Sim.worldCD "minecraft:the_end"))))
     = [].
Proof.
  split; [|repeat split; vm_compute; reflexivity].
  intros World Player host cfg w dimensionName pos allowedBlock. split.
  - cbn [scan]. rewrite scanUp_scanWith.
    eapply List.Forall_impl;
      [|apply scanWith_lookups; constructor].
    cbn beta. intros c Hc. apply aboveLimit_false. exact Hc.
  - intros b Hb. rewrite scan_up_first in Hb.
    apply firstWith_Some in Hb as (y & _ & _ & Hstop & _).
    apply aboveLimit_false. exact Hstop.
Qed.

Lemma up_bound_witness :
  ("minecraft:overworld"%string = "minecraft:overworld"%string ->
   Vector3.y (Sim.at_ 0 338 0) < maxLimitOW config)
  /\ ("minecraft:overworld"%string = "minecraft:nether"%string
      \/ "minecraft:overworld"%string = "minecraft:the_end"%string ->
      Vector3.y (Sim.at_ 0 338 0) < maxLimitETC config).
Proof.
  apply (proj2 (proj1 up_bound_respected Sim.SimWorld string Sim.sim_host
                      config (Sim.worldCD "minecraft:overworld")
                      "minecraft:overworld"%string
                      (Sim.at_ 0 330 0) "minecraft:diamond_block"%string)).
  reflexivity.
Defined.

(** * The handlers *)

(** C7.  Dispatch.  When the gate of a direction is open and its scan
    finds the block [b], the handler calls the host's teleport with the
    landing position (b.x + 0.5, b.y + 1, b.z + 0.5), after the lookups of
    the scan, and sets the cooldown flag of that direction in the
    player's record; the other flag and the other records are untouched. *)
Theorem dispatch_lands_on_top :
  forall (World Player : Type) (host : Host World Player) (cfg : Config)
         (q : Player) (dimension : string) (pos : BlockPos)
         (allowedBlock r dimensionName : string) (st : State World Player)
         (b : BlockPos),
    let target :=
      Vector3.mk (inject_Z (Vector3.x b) + (1 # 2))%Q
                 (inject_Z (Vector3.y b) + 1)%Q
                 (inject_Z (Vector3.z b) + (1 # 2))%Q in
    (downOpen q r st ->
     scan_result (scanDown cfg (world st) dimension pos allowedBlock
                           (downOffsets cfg) scan_init) = Some b ->
     let st' := handleDownTeleport cfg q dimension pos allowedBlock r st in
     world st' = teleport (world st) q target
     /\ trace st'
        = trace st
          ++ map (EvGetBlock dimension)
                 (lookups (scanDown cfg (world st) dimension pos allowedBlock
                                    (downOffsets cfg) scan_init))
          ++ [EvTeleport Down q target]
     /\ stateOf st' r
        = {| hasTeleportedDown := true;
             hasTeleportedUp := hasTeleportedUp (stateOf st r) |}
     /\ forall r', r' <> r -> playerStates st' !! r' = playerStates st !! r')
    /\
    (upOpen q r st ->
     scan_result (scanUp cfg (world st) dimension pos allowedBlock dimensionName
                         (upOffsets cfg) scan_init) = Some b ->
     let st' := handleUpTeleport cfg q dimension pos allowedBlock r
                                 dimensionName st in
     world st' = teleport (world st) q target
     /\ trace st'
        = trace st
          ++ map (EvGetBlock dimension)
                 (lookups (scanUp cfg (world st) dimension pos allowedBlock
                                  dimensionName (upOffsets cfg) scan_init))
          ++ [EvTeleport Up q target]
     /\ stateOf st' r
        = {| hasTeleportedDown := hasTeleportedDown (stateOf st r);
             hasTeleportedUp := true |}
     /\ forall r', r' <> r -> playerStates st' !! r' = playerStates st !! r').
Proof.
  intros World Player host cfg q dimension pos allowedBlock r dimensionName st b
         target.
  split; intros Hopen Hscan st'.
  - destruct (handleDownTeleport_cases cfg q dimension pos allowedBlock r st)
      as [[Hno _]|[(_ & Hnone & _)|(_ & b' & Hb' & Hst')]].
    + contradiction.
    + rewrite Hscan in Hnone. discriminate Hnone.
    + rewrite Hscan in Hb'. injection Hb' as <-.
      unfold st'. rewrite Hst'. repeat split.
      * cbn. rewrite <- app_assoc. reflexivity.
      * rewrite stateOf_set_down, decide_True by reflexivity. reflexivity.
      * intros r' Hne. cbn. apply lookup_insert_ne. congruence.
  - destruct (handleUpTeleport_cases cfg q dimension pos allowedBlock r
                                     dimensionName st)
      as [[Hno _]|[(_ & Hnone & _)|(_ & b' & Hb' & Hst')]].
    + contradiction.
    + rewrite Hscan in Hnone. discriminate Hnone.
    + rewrite Hscan in Hb'. injection Hb' as <-.
      unfold st'. rewrite Hst'. repeat split.
      * cbn. rewrite <- app_assoc. reflexivity.
      * rewrite stateOf_set_up, decide_True by reflexivity. reflexivity.
      * intros r' Hne. cbn. apply lookup_insert_ne. congruence.
Qed.

Lemma dispatch_witness :
  world (handleDownTeleport config "steve"%string "minecraft:overworld"
           (Sim.at_ 0 10 0) "minecraft:diamond_block" "steve"
           (Sim.start Sim.worldA))
  = teleport Sim.worldA "steve"%string (Vector3.mk (1 # 2)%Q 6%Q (1 # 2)%Q).
Proof.
  apply (proj1 (dispatch_lands_on_top Sim.SimWorld string Sim.sim_host config
                  "steve"%string "minecraft:overworld"%string (Sim.at_ 0 10 0)
                  "minecraft:diamond_block"%string "steve"%string
                  "minecraft:overworld"%string
                  (Sim.start Sim.worldA) (Sim.at_ 0 5 0))).
  - repeat split; reflexivity.
  - reflexivity.
Defined.

(** C8.  Non-matches.  At a scan step, an absent block and a block of
    another type are the same to the script: the scan goes on to the next
    offset with its locals unchanged, so scans of two worlds that agree
    on which positions hold the target type are equal.  When a scan ends
    without a match, the handler calls no teleport: the host world and the
    store are unchanged and the trace grows by the lookups only. *)
Theorem non_match_is_silent :
  forall (World Player : Type) (host : Host World Player) (cfg : Config)
         (dimension : string) (pos : BlockPos)
         (allowedBlock dimensionName : string),
    (forall (w : World) (y : Z) (ys : list Z) (s : Scan),
        getBlock w dimension (checkPosAt pos y) = None
        \/ (exists blk, getBlock w dimension (checkPosAt pos y) = Some blk
                        /\ typeId blk <> allowedBlock) ->
        ((Vector3.y (checkPosAt pos y) <=? miniLimit cfg) = false ->
         scanDown cfg w dimension pos allowedBlock (y :: ys) s
         = scanDown cfg w dimension pos allowedBlock ys
                    (looked_up (checkPosAt pos y) s))
        /\ (aboveLimit cfg dimensionName (Vector3.y (checkPosAt pos y)) = false ->
            scanUp cfg w dimension pos allowedBlock dimensionName (y :: ys) s
            = scanUp cfg w dimension pos allowedBlock dimensionName ys
                     (looked_up (checkPosAt pos y) s)))
    /\ (forall (w1 w2 : World) (ys : list Z) (s : Scan),
           (forall c, notTarget (getBlock w1 dimension c) allowedBlock
                      = notTarget (getBlock w2 dimension c) allowedBlock) ->
           scanDown cfg w1 dimension pos allowedBlock ys s
           = scanDown cfg w2 dimension pos allowedBlock ys s
           /\ scanUp cfg w1 dimension pos allowedBlock dimensionName ys s
              = scanUp cfg w2 dimension pos allowedBlock dimensionName ys s)
    /\ (forall (q : Player) (r : string) (st : State World Player),
           (downOpen q r st ->
            scan_result (scanDown cfg (world st) dimension pos allowedBlock
                                  (downOffsets cfg) scan_init) = None ->
            let st' := handleDownTeleport cfg q dimension pos allowedBlock r st in
            world st' = world st /\ playerStates st' = playerStates st
            /\ trace st'
               = trace st
                 ++ map (EvGetBlock dimension)
                        (lookups (scanDown cfg (world st) dimension pos
                                    allowedBlock (downOffsets cfg) scan_init)))
           /\ (upOpen q r st ->
               scan_result (scanUp cfg (world st) dimension pos allowedBlock
                                   dimensionName (upOffsets cfg) scan_init) = None ->
               let st' := handleUpTeleport cfg q dimension pos allowedBlock r
                                           dimensionName st in
               world st' = world st /\ playerStates st' = playerStates st
               /\ trace st'
                  = trace st
                    ++ map (EvGetBlock dimension)
                           (lookups (scanUp cfg (world st) dimension pos
                                       allowedBlock dimensionName
                                       (upOffsets cfg) scan_init)))).
Proof.
  intros World Player host cfg dimension pos allowedBlock dimensionName.
  split; [|split].
  - intros w y ys s Hblk.
    assert (Hn : notTarget (getBlock w dimension (checkPosAt pos y)) allowedBlock
                 = true).
    { destruct Hblk as [-> | (blk & -> & Hne)];
        [apply notTarget_absent | apply notTarget_mismatch, Hne]. }
    split; intros Hgo; cbn [scanDown scanUp]; rewrite Hgo, Hn; reflexivity.
  - intros w1 w2 ys s Hagree. rewrite !scanDown_scanWith, !scanUp_scanWith.
    split.
    + revert s. induction ys as [|y ys IH]; intros s; cbn [scanWith];
        [reflexivity|].
      destruct (stopDown cfg _); [reflexivity|].
      rewrite Hagree, !IH. reflexivity.
    + revert s. induction ys as [|y ys IH]; intros s; cbn [scanWith];
        [reflexivity|].
      destruct (aboveLimit cfg dimensionName _); [reflexivity|].
      rewrite Hagree, !IH. reflexivity.
  - intros q r st. split; intros Hopen Hscan st'.
    + destruct (handleDownTeleport_cases cfg q dimension pos allowedBlock r st)
        as [[Hno _]|[(_ & _ & Hst')|(_ & b' & Hb' & _)]].
      * contradiction.
      * unfold st'. rewrite Hst'. cbn. auto.
      * rewrite Hscan in Hb'. discriminate Hb'.
    + destruct (handleUpTeleport_cases cfg q dimension pos allowedBlock r
                                       dimensionName st)
        as [[Hno _]|[(_ & _ & Hst')|(_ & b' & Hb' & _)]].
      * contradiction.
      * unfold st'. rewrite Hst'. cbn. auto.
      * rewrite Hscan in Hb'. discriminate Hb'.
Qed.

Lemma non_match_witness :
  world (handleDownTeleport Sim.configB "steve"%string "minecraft:overworld"
           (Sim.at_ 0 10 0) "minecraft:diamond_block" "steve"
           (Sim.start Sim.worldA))
  = Sim.worldA
  /\ playerStates (handleDownTeleport Sim.configB "steve"%string
                     "minecraft:overworld" (Sim.at_ 0 10 0)
                     "minecraft:diamond_block" "steve" (Sim.start Sim.worldA))
     = ∅
  /\ trace (handleDownTeleport Sim.configB "steve"%string "minecraft:overworld"
              (Sim.at_ 0 10 0) "minecraft:diamond_block" "steve"
              (Sim.start Sim.worldA))
     = [ EvGetBlock "minecraft:overworld" (Sim.at_ 0 8 0);
         EvGetBlock "minecraft:overworld" (Sim.at_ 0 7 0) ].
Proof.
  apply (proj1 (proj2 (proj2 (non_match_is_silent Sim.SimWorld string
                   Sim.sim_host Sim.configB "minecraft:overworld"%string
                   (Sim.at_ 0 10 0) "minecraft:diamond_block"%string
                   "minecraft:overworld"%string))
                 "steve"%string "steve"%string (Sim.start Sim.worldA))).
  - repeat split; reflexivity.
  - reflexivity.
Defined.

(** * The iteration *)

(** C2, as the script has it.  When the block under the player's floored
    position is absent or of another type than the allowed one, the
    iteration runs no scan and calls no teleport: the host is asked for
    that one block only and the world is unchanged.  The player's record
    was fetched, or created, and reset before the check: its flags are
    the old ones, cleared where the input of the direction is not held.
    No flag is set, and the records of other ids are untouched. *)
Theorem skipped_block_type :
  forall (World Player : Type) (host : Host World Player) (cfg : Config)
         (dimensionName : string) (player : Player) (allowedBlock : string)
         (st : State World Player),
    let belowPos := belowPosOf (floorPos (location (world st) player)) in
    notTarget (getBlock (world st) dimensionName belowPos) allowedBlock = true ->
    let st' := processBlockType cfg dimensionName player allowedBlock st in
    world st' = world st
    /\ trace st' = trace st ++ [EvGetBlock dimensionName belowPos]
    /\ is_Some (playerStates st' !! player_id player)
    /\ stateOf st' (player_id player)
       = {| hasTeleportedDown :=
              hasTeleportedDown (stateOf st (player_id player))
              && isSneaking (world st) player;
            hasTeleportedUp :=
              hasTeleportedUp (stateOf st (player_id player))
              && isJumping (world st) player |}
    /\ forall r, r <> player_id player ->
                 playerStates st' !! r = playerStates st !! r.
Proof.
  intros World Player host cfg dimensionName player allowedBlock st belowPos
         Hbelow st'.
  unfold st', processBlockType.
  rewrite world_reset, world_getPlayerState. fold belowPos. rewrite Hbelow.
  cbn [world trace playerStates log].
  rewrite world_reset, world_getPlayerState, trace_reset, trace_getPlayerState.
  split; [reflexivity|]. split; [reflexivity|]. split; [|split].
  - unfold resetPlayerState, getPlayerState.
    destruct (playerStates st !! player_id player) eqn:E;
      destruct (negb (isSneaking _ player)); cbn;
      destruct (negb (isJumping _ player)); cbn;
      rewrite ?lookup_insert_eq, ?E; eauto.
  - change (stateOf (resetPlayerState (player_id player) player
                       (getPlayerState (player_id player) st))
                    (player_id player)
            = {| hasTeleportedDown :=
                   hasTeleportedDown (stateOf st (player_id player))
                   && isSneaking (world st) player;
                 hasTeleportedUp :=
                   hasTeleportedUp (stateOf st (player_id player))
                   && isJumping (world st) player |}).
    rewrite stateOf_reset, decide_True by reflexivity.
    rewrite stateOf_getPlayerState, world_getPlayerState. reflexivity.
  - intros r Hne.
    unfold resetPlayerState, getPlayerState.
    destruct (playerStates st !! player_id player) eqn:E;
      destruct (negb (isSneaking _ player)); cbn;
      destruct (negb (isJumping _ player)); cbn;
      rewrite ?lookup_insert_ne by congruence; reflexivity.
Qed.

Lemma skipped_block_type_witness :
  world (processBlockType config "minecraft:overworld" "alex"%string
           "minecraft:diamond_block" (Sim.start Sim.worldAir))
  = Sim.worldAir.
Proof.
  apply (skipped_block_type Sim.SimWorld string Sim.sim_host config
           "minecraft:overworld"%string "alex"%string
           "minecraft:diamond_block"%string (Sim.start Sim.worldAir)).
  reflexivity.
Defined.

(** C2, as the specification words it, fails: the iteration of a player
    in mid-air, for whom the block below is absent, creates the player's
    entry in an empty store, and clears both flags of a record that had
    them set. *)
Lemma skipped_block_type_changes_store :
  notTarget (getBlock Sim.worldAir "minecraft:overworld"
               (belowPosOf (floorPos (location Sim.worldAir "alex"%string))))
            "minecraft:diamond_block" = true
  /\ playerStates (Sim.start Sim.worldAir) !! "alex"%string = None
  /\ playerStates (processBlockType config "minecraft:overworld" "alex"%string
                     "minecraft:diamond_block" (Sim.start Sim.worldAir))
     !! "alex"%string
     = Some {| hasTeleportedDown := false; hasTeleportedUp := false |}
  /\ playerStates (processBlockType config "minecraft:overworld" "alex"%string
                     "minecraft:diamond_block" (Sim.start Sim.worldAir))
     <> playerStates (Sim.start Sim.worldAir)
  /\ playerStates (Sim.after_teleports "alex" Sim.worldAir) !! "alex"%string
     = Some {| hasTeleportedDown := true; hasTeleportedUp := true |}
  /\ playerStates (processBlockType config "minecraft:overworld" "alex"%string
                     "minecraft:diamond_block"
                     (Sim.after_teleports "alex" Sim.worldAir))
     !! "alex"%string
     = Some {| hasTeleportedDown := false; hasTeleportedUp := false |}.
Proof.
  split; [reflexivity|]. split; [reflexivity|]. split; [vm_compute; reflexivity|].
  split; [|split; vm_compute; reflexivity].
  intros E.
  apply (f_equal (fun m : gmap string PlayerState => m !! "alex"%string)) in E.
  vm_compute in E. discriminate E.
Qed.

(** * The tick *)

Lemma count_events_In {Player : Type} (f : Event Player -> bool)
      (e : Event Player) (l : list (Event Player)) :
  In e l -> f e = true -> (1 <= count_events f l)%nat.
Proof.
  induction l as [|e' l IH]; cbn; [intros []|].
  intros [-> | Hin] He.
  - rewrite He. lia.
  - specialize (IH Hin He). lia.
Qed.

Lemma isTeleportOfDir_isTeleportOf {World Player : Type} `{host : Host World Player}
      (d : Direction) (pid : string) (e : Event Player) :
  isTeleportOfDir d pid e = true -> isTeleportOf pid e = true.
Proof.
  destruct e as [|d' q t]; cbn; [auto|].
  intros E. apply andb_true_iff in E as [_ E]. exact E.
Qed.

Section TickFacts.
Context {World Player : Type} `{host : Host World Player}.
Variable cfg : Config.
#[local] Abbreviation State := (State World Player).

Variable p : Player.
Variable f : Event Player -> bool.
Hypothesis Hf : forall e, f e = true -> isTeleportOf (player_id p) e = true.
Hypothesis Hinj : forall q : Player, player_id q = player_id p -> q = p.
Hypothesis Hstable : forall (w : World) (q : Player) (t : Location),
    isSneaking (teleport w q t) p = isSneaking w p
    /\ isJumping (teleport w q t) p = isJumping w p.

Lemma tick_Held (d : Direction) (c : nat) (st : State) :
  Held f p d c st -> Held f p d c (tick cfg st).
Proof.
  apply (tick_preserves cfg (Held f p d c)).
  intros dn q ab st'. apply Held_step; assumption.
Qed.

Lemma tick_Locked (d : Direction) (c : nat) (st : State) :
  Locked f p d c st -> Locked f p d c (tick cfg st).
Proof.
  apply (tick_preserves cfg (Locked f p d c)).
  intros dn q ab st'. apply Locked_step; assumption.
Qed.

Lemma tick_Closed (c : nat) (st : State) :
  Closed f p c st -> Closed f p c (tick cfg st).
Proof.
  apply (tick_preserves cfg (Closed f p c)).
  intros dn q ab st'. apply Closed_step; assumption.
Qed.

(** Across ticks in which the input of [d] is held: at most one counted
    event more, and then the flag of [d] is set. *)
Lemma run_held (d : Direction) (c : nat) (ws : list World) (st : State) :
  (forall w, In w ws -> input_of d w p = true) ->
  (count_events f (trace st) <= c)%nat
  \/ (flag_of d (stateOf st (player_id p)) = true
      /\ (count_events f (trace st) <= S c)%nat) ->
  (count_events f (trace (run cfg ws st)) <= c)%nat
  \/ (flag_of d (stateOf (run cfg ws st) (player_id p)) = true
      /\ (count_events f (trace (run cfg ws st)) <= S c)%nat).
Proof.
  intros Hws.
  apply (run_preserves cfg
           (fun st' => (count_events f (trace st') <= c)%nat
                       \/ (flag_of d (stateOf st' (player_id p)) = true
                           /\ (count_events f (trace st') <= S c)%nat))).
  intros w st' Hin HJ.
  assert (HH : Held f p d c (enter w st')).
  { split; [exact (Hws w Hin)|].
    destruct HJ as [Hc | [Hfl Hc]]; [left; exact Hc|].
    right. split; [exact (Hws w Hin)|]. split; [exact Hfl | exact Hc]. }
  apply tick_Held in HH. destruct HH as [_ [Hc | (_ & Hfl & Hc)]]; auto.
Qed.

(** Across such ticks, a flag that is set stays set and nothing counted
    happens. *)
Lemma run_locked (d : Direction) (c : nat) (ws : list World) (st : State) :
  (forall w, In w ws -> input_of d w p = true) ->
  flag_of d (stateOf st (player_id p)) = true
  /\ (count_events f (trace st) <= c)%nat ->
  flag_of d (stateOf (run cfg ws st) (player_id p)) = true
  /\ (count_events f (trace (run cfg ws st)) <= c)%nat.
Proof.
  intros Hws.
  apply (run_preserves cfg
           (fun st' => flag_of d (stateOf st' (player_id p)) = true
                       /\ (count_events f (trace st') <= c)%nat)).
  intros w st' Hin [Hfl Hc].
  assert (HL : Locked f p d c (enter w st')).
  { split; [exact (Hws w Hin)|]. split; [exact Hfl | exact Hc]. }
  apply tick_Locked in HL. destruct HL as (_ & Hfl' & Hc'). auto.
Qed.

Lemma count_new (evs : list (Event Player)) (st st' : State) (k : nat) :
  extends_by evs st st' ->
  (count_events f (trace st') <= count_events f (trace st) + k)%nat ->
  (count_events f evs <= k)%nat.
Proof.
  unfold extends_by. intros ->. rewrite count_events_app. lia.
Qed.

(** An iteration in which the input of [d] is not held leaves the flag
    of [d] cleared. *)
Lemma released_clears (d : Direction) (dimensionName allowedBlock : string)
      (st : State) :
  input_of d (world st) p = false ->
  flag_of d (stateOf (processBlockType cfg dimensionName p allowedBlock st)
                     (player_id p)) = false.
Proof.
  intros Hrel.
  pose proof (view_own cfg p f Hf Hstable dimensionName allowedBlock st) as Hown.
  cbn zeta in Hown.
  destruct Hown as [Hv|[(Hs & Hj & _ & n' & _ & Hv)|(Hj & Hs & _ & n' & _ & Hv)]];
    apply view_inv in Hv as (_ & _ & -> & _);
    destruct d; cbn [input_of flag_of hasTeleportedDown hasTeleportedUp] in *;
    rewrite ?Hrel, ?andb_false_r in *; try reflexivity; congruence.
Qed.
End TickFacts.

(** C4.  Both inputs.  When a player is sneaking and jumping at once,
    both handlers return at their gate, whatever blocks the world holds:
    each gate asks for the other input to be absent.  Hence a tick in
    which both inputs of a player are held teleports that player in
    neither direction. *)
Theorem both_inputs_fire_nothing :
  forall (World Player : Type) (host : Host World Player) (cfg : Config),
    (forall (q : Player) (dimension : string) (pos : BlockPos)
            (allowedBlock r dimensionName : string) (st : State World Player),
        isSneaking (world st) q = true -> isJumping (world st) q = true ->
        handleDownTeleport cfg q dimension pos allowedBlock r st = st
        /\ handleUpTeleport cfg q dimension pos allowedBlock r dimensionName st
           = st)
    /\ (forall (p : Player) (st : State World Player),
           (forall q : Player, player_id q = player_id p -> q = p) ->
           (forall (w : World) (q : Player) (t : Location),
               isSneaking (teleport w q t) p = isSneaking w p
               /\ isJumping (teleport w q t) p = isJumping w p) ->
           isSneaking (world st) p = true -> isJumping (world st) p = true ->
           exists evs,
             extends_by evs st (tick cfg st)
             /\ count_events (isTeleportOf (player_id p)) evs = O
             /\ forall d t, ~ In (EvTeleport d p t) evs).
Proof.
  intros World Player host cfg. split.
  - intros q dimension pos allowedBlock r dimensionName st Hs Hj.
    unfold handleDownTeleport, handleUpTeleport. rewrite Hs, Hj. cbn. auto.
  - intros p st Hinj Hstable Hs Hj.
    destruct (extends_tick cfg st) as [evs Hevs]. exists evs.
    assert (Hc : (count_events (isTeleportOf (player_id p)) evs <= 0)%nat).
    { apply (count_new (isTeleportOf (player_id p)) evs st (tick cfg st));
        [exact Hevs|].
      apply (tick_Closed cfg p (isTeleportOf (player_id p)));
        [auto | exact Hinj | exact Hstable |].
      split; [congruence | lia]. }
    split; [exact Hevs|]. split; [lia|].
    intros d t Hin.
    apply (count_events_In (isTeleportOf (player_id p))) in Hin.
    + lia.
    + cbn. apply String.eqb_refl.
Qed.

Lemma both_inputs_witness :
  exists evs,
    extends_by evs (Sim.start Sim.worldBoth) (tick config (Sim.start Sim.worldBoth))
    /\ count_events (isTeleportOf "steve") evs = O
    /\ forall d t, ~ In (EvTeleport d "steve"%string t) evs.
Proof.
  apply (proj2 (both_inputs_fire_nothing Sim.SimWorld string Sim.sim_host config)
               "steve"%string (Sim.start Sim.worldBoth)).
  - intros q. apply sim_id_inj.
  - apply sim_inputs_stable.
  - reflexivity.
  - reflexivity.
Defined.

(** C3.  Cooldown.  Over any number of consecutive ticks in which the
    input of a direction stays held for a player (sneaking for down,
    jumping for up), that direction teleports the player at most once;
    and when its flag is already set, as it is after a teleport, it does
    not teleport the player at all and the flag stays set.  The flag is
    cleared by the reset rule in an iteration in which the input is not
    held, which re-arms the direction. *)
Theorem cooldown_until_release :
  forall (World Player : Type) (host : Host World Player) (cfg : Config)
         (p : Player) (d : Direction),
    (forall q : Player, player_id q = player_id p -> q = p) ->
    (forall (w : World) (q : Player) (t : Location),
        isSneaking (teleport w q t) p = isSneaking w p
        /\ isJumping (teleport w q t) p = isJumping w p) ->
    (forall (ws : list World) (st : State World Player),
        (forall w, In w ws -> input_of d w p = true) ->
        exists evs,
          extends_by evs st (run cfg ws st)
          /\ (count_events (isTeleportOfDir d (player_id p)) evs <= 1)%nat
          /\ (flag_of d (stateOf st (player_id p)) = true ->
              count_events (isTeleportOfDir d (player_id p)) evs = O
              /\ flag_of d (stateOf (run cfg ws st) (player_id p)) = true))
    /\ (forall (dimensionName allowedBlock : string) (st : State World Player),
           input_of d (world st) p = false ->
           flag_of d (stateOf (processBlockType cfg dimensionName p allowedBlock st)
                              (player_id p)) = false).
Proof.
  intros World Player host cfg p d Hinj Hstable.
  pose proof (isTeleportOfDir_isTeleportOf d (player_id p)) as Hf.
  split.
  - intros ws st Hws.
    destruct (extends_run cfg ws st) as [evs Hevs]. exists evs.
    split; [exact Hevs|]. split.
    + apply (count_new (isTeleportOfDir d (player_id p)) evs st (run cfg ws st));
        [exact Hevs|].
      destruct (run_held cfg p _ Hf Hinj Hstable d
                         (count_events (isTeleportOfDir d (player_id p)) (trace st))
                         ws st Hws) as [Hc | [_ Hc]]; [left; lia | lia | lia].
    + intros Hfl.
      destruct (run_locked cfg p _ Hf Hinj Hstable d
                           (count_events (isTeleportOfDir d (player_id p)) (trace st))
                           ws st Hws) as [Hfl' Hc]; [split; [exact Hfl | lia]|].
      split; [|exact Hfl'].
      apply Nat.le_0_r.
      apply (count_new (isTeleportOfDir d (player_id p)) evs st (run cfg ws st));
        [exact Hevs | lia].
  - intros dimensionName allowedBlock st Hrel.
    apply (released_clears cfg p (isTeleportOf (player_id p)));
      [auto | exact Hstable | exact Hrel].
Qed.

Lemma cooldown_witness :
  exists evs,
    extends_by evs (Sim.start Sim.worldA)
               (run config [Sim.worldA; Sim.worldA; Sim.worldA] (Sim.start Sim.worldA))
    /\ (count_events (isTeleportOfDir Down "steve") evs <= 1)%nat
    /\ (flag_of Down (stateOf (Sim.start Sim.worldA) "steve") = true ->
        count_events (isTeleportOfDir Down "steve") evs = O
        /\ flag_of Down
             (stateOf (run config [Sim.worldA; Sim.worldA; Sim.worldA]
                           (Sim.start Sim.worldA)) "steve") = true).
Proof.
  apply (proj1 (cooldown_until_release Sim.SimWorld string Sim.sim_host config
                  "steve"%string Down
                  (fun q => sim_id_inj "steve"%string q)
                  (sim_inputs_stable "steve"%string))
               [Sim.worldA; Sim.worldA; Sim.worldA] (Sim.start Sim.worldA)).
  intros w Hw. cbn in Hw.
  destruct Hw as [<- | [<- | [<- | []]]]; reflexivity.
Defined.

(** C10.  In one tick a player is teleported at most once, over all the
    allowed block types and both directions: with the inputs fixed during
    the tick at most one gate can open, and the flag set by the first
    dispatch keeps that gate closed for the block types that follow. *)
Theorem at_most_one_teleport_per_tick :
  forall (World Player : Type) (host : Host World Player) (cfg : Config)
         (p : Player) (st : State World Player),
    (forall q : Player, player_id q = player_id p -> q = p) ->
    (forall (w : World) (q : Player) (t : Location),
        isSneaking (teleport w q t) p = isSneaking w p
        /\ isJumping (teleport w q t) p = isJumping w p) ->
    exists evs,
      extends_by evs st (tick cfg st)
      /\ (count_events (isTeleportOf (player_id p)) evs <= 1)%nat.
Proof.
  intros World Player host cfg p st Hinj Hstable.
  destruct (extends_tick cfg st) as [evs Hevs]. exists evs.
  split; [exact Hevs|].
  set (f := isTeleportOf (player_id p)).
  assert (Hf : forall e, f e = true -> isTeleportOf (player_id p) e = true)
    by auto.
  apply (count_new f evs st (tick cfg st)); [exact Hevs|].
  destruct (isSneaking (world st) p) eqn:Hs.
  - (* sneaking: only down can fire, once *)
    destruct (tick_Held cfg p f Hf Hinj Hstable Down
                        (count_events f (trace st)) st)
      as [_ [Hc | (_ & _ & Hc)]]; [|lia|lia].
    split; [exact Hs | left; lia].
  - destruct (isJumping (world st) p) eqn:Hj.
    + (* jumping only: only up can fire, once *)
      destruct (tick_Held cfg p f Hf Hinj Hstable Up
                          (count_events f (trace st)) st)
        as [_ [Hc | (_ & _ & Hc)]]; [|lia|lia].
      split; [exact Hj | left; lia].
    + (* neither input: nothing fires *)
      destruct (tick_Closed cfg p f Hf Hinj Hstable
                            (count_events f (trace st)) st) as [_ Hc]; [|lia].
      split; [congruence | lia].
Qed.

Lemma at_most_one_teleport_witness :
  exists evs,
    extends_by evs (Sim.start Sim.worldThree) (tick config (Sim.start Sim.worldThree))
    /\ (count_events (isTeleportOf "steve") evs <= 1)%nat.
Proof.
  apply (at_most_one_teleport_per_tick Sim.SimWorld string Sim.sim_host config
           "steve"%string (Sim.start Sim.worldThree)).
  - intros q. apply sim_id_inj.
  - apply sim_inputs_stable.
Defined.

(** * More about the scans *)

Section ScanCharacterisation.
Context {World Player : Type} `{host : Host World Player}.
Variables (w : World) (dimensionName : string) (pos : BlockPos)
          (allowedBlock : string).
Variables (stop : Z -> bool) (f : nat -> Z).

(** A first match over [f a, f (a+1), ...] sits at some [f k]; nothing
    before it stopped the loop or matched. *)
Lemma firstWith_seq_Some (a n : nat) (b : BlockPos) :
  firstWith stop w dimensionName pos allowedBlock (map f (seq a n)) = Some b ->
  exists k : nat,
    (a <= k < a + n)%nat /\ b = checkPosAt pos (f k)
    /\ stop (Vector3.y (checkPosAt pos (f k))) = false
    /\ notTarget (getBlock w dimensionName (checkPosAt pos (f k))) allowedBlock
       = false
    /\ forall i : nat, (a <= i < k)%nat ->
         notTarget (getBlock w dimensionName (checkPosAt pos (f i))) allowedBlock
         = true.
Proof.
  revert a. induction n as [|n IH]; intros a; cbn [seq map firstWith];
    [intros [=]|].
  destruct (stop (Vector3.y (checkPosAt pos (f a)))) eqn:Es; [intros [=]|].
  destruct (notTarget (getBlock w dimensionName (checkPosAt pos (f a)))
                      allowedBlock) eqn:En.
  - intros E. destruct (IH (S a) E) as (k & Hk & Hb & Hs & Hm & Hbefore).
    exists k. split; [lia|]. split; [exact Hb|]. split; [exact Hs|].
    split; [exact Hm|].
    intros i Hi. destruct (Nat.eq_dec i a) as [-> | Hne]; [exact En|].
    apply Hbefore. lia.
  - intros [= <-]. exists a. split; [lia|]. split; [reflexivity|].
    split; [exact Es|]. split; [exact En|].
    intros i Hi. lia.
Qed.

(** No first match: every offset the loop reaches is a non-match. *)
Lemma firstWith_seq_None (a n k : nat) :
  firstWith stop w dimensionName pos allowedBlock (map f (seq a n)) = None ->
  (a <= k < a + n)%nat ->
  (forall i : nat, (a <= i <= k)%nat ->
     stop (Vector3.y (checkPosAt pos (f i))) = false) ->
  notTarget (getBlock w dimensionName (checkPosAt pos (f k))) allowedBlock = true.
Proof.
  revert a. induction n as [|n IH]; intros a; cbn [seq map firstWith];
    [intros _ Hk; lia|].
  intros E Hk Hgo.
  rewrite (Hgo a) in E by lia.
  destruct (notTarget (getBlock w dimensionName (checkPosAt pos (f a)))
                      allowedBlock) eqn:En; [|discriminate E].
  destruct (Nat.eq_dec k a) as [-> | Hne]; [exact En|].
  apply (IH (S a) E); [lia|]. intros i Hi. apply Hgo. lia.
Qed.

(** The lookups of a loop are the visited positions, match or no match. *)
Lemma scanWith_lookups_eq (dist : Z -> Z) (ys : list Z) (s : Scan) :
  lookups (scanWith stop dist w dimensionName pos allowedBlock ys s)
  = lookups s ++ visited stop pos ys.
Proof.
  revert s. induction ys as [|y ys IH]; intros s; cbn [scanWith visited].
  - rewrite app_nil_r. reflexivity.
  - destruct (stop (Vector3.y (checkPosAt pos y))); [rewrite app_nil_r; reflexivity|].
    destruct (notTarget _ _); rewrite IH.
    + cbn. rewrite <- app_assoc. reflexivity.
    + unfold record_match. destruct (dist_lt _ _); cbn;
        rewrite <- app_assoc; reflexivity.
Qed.

Lemma visited_length (ys : list Z) :
  (length (visited stop pos ys) <= length ys)%nat.
Proof.
  induction ys as [|y ys IH]; cbn; [lia|].
  destruct (stop _); cbn; lia.
Qed.

Lemma visited_all (ys : list Z) :
  (forall y, stop y = false) -> visited stop pos ys = map (checkPosAt pos) ys.
Proof.
  intros Hno. induction ys as [|y ys IH]; cbn; [reflexivity|].
  rewrite Hno, IH. reflexivity.
Qed.
End ScanCharacterisation.

Lemma scan_lookups_visited {World Player : Type} `{host : Host World Player}
      (cfg : Config) (d : Direction) (w : World) (dimensionName : string)
      (pos : BlockPos) (allowedBlock : string) :
  lookups (scan cfg d w dimensionName pos allowedBlock)
  = visited (match d with
             | Down => stopDown cfg
             | Up => aboveLimit cfg dimensionName
             end) pos
            (match d with Down => downOffsets cfg | Up => upOffsets cfg end).
Proof.
  destruct d; cbn [scan].
  - rewrite scanDown_scanWith, scanWith_lookups_eq. reflexivity.
  - rewrite scanUp_scanWith, scanWith_lookups_eq. reflexivity.
Qed.

Lemma offsets_length (cfg : Config) (d : Direction) :
  (length (match d with Down => downOffsets cfg | Up => upOffsets cfg end)
   <= Z.to_nat (maximum cfg))%nat.
Proof.
  destruct d; unfold downOffsets, upOffsets;
    rewrite List.length_map, List.length_seq; lia.
Qed.

(** X1.  What a scan returns is the nearest match of its range: the
    returned block lies in the player's column at a distance within the
    step budget and the height bound, it has the target type, and no
    block nearer on that side has. *)
Theorem scan_result_is_nearest_match :
  forall (World Player : Type) (host : Host World Player) (cfg : Config)
         (d : Direction) (w : World) (dimensionName : string)
         (pos : BlockPos) (allowedBlock : string) (b : BlockPos),
    scan_result (scan cfg d w dimensionName pos allowedBlock) = Some b ->
    exists dist,
      inScan cfg d dimensionName pos dist
      /\ b = checkPosAt pos (offsetOf d dist)
      /\ isTarget w dimensionName b allowedBlock = true
      /\ forall k, firstDistance d <= k < dist ->
           isTarget w dimensionName (checkPosAt pos (offsetOf d k)) allowedBlock
           = false.
Proof.
  intros World Player host cfg d w dimensionName pos allowedBlock b Hres.
  destruct d; cbn [inScan offsetOf firstDistance].
  - rewrite scan_down_first in Hres. unfold downOffsets in Hres.
    apply firstWith_seq_Some in Hres as (k & Hk & Hb & Hs & Hm & Hbefore).
    exists (Z.of_nat k). unfold stopDown in Hs. cbn in Hs.
    apply Z.leb_gt in Hs.
    split; [lia|]. split; [exact Hb|]. split.
    + unfold isTarget. rewrite Hb, Hm. reflexivity.
    + intros j Hj. unfold isTarget.
      replace (- j) with (- Z.of_nat (Z.to_nat j)) by lia.
      rewrite (Hbefore (Z.to_nat j)) by lia. reflexivity.
  - rewrite scan_up_first in Hres. unfold upOffsets in Hres.
    apply firstWith_seq_Some in Hres as (k & Hk & Hb & Hs & Hm & Hbefore).
    exists (Z.of_nat k). cbn in Hs.
    split; [split; [lia | exact Hs]|]. split; [exact Hb|]. split.
    + unfold isTarget. rewrite Hb, Hm. reflexivity.
    + intros j Hj. unfold isTarget.
      replace j with (Z.of_nat (Z.to_nat j)) by lia.
      rewrite (Hbefore (Z.to_nat j)) by lia. reflexivity.
Qed.

Lemma scan_result_is_nearest_match_witness :
  exists dist,
    inScan config Down "minecraft:overworld" (Sim.at_ 0 10 0) dist
    /\ Sim.at_ 0 7 0 = checkPosAt (Sim.at_ 0 10 0) (offsetOf Down dist)
    /\ isTarget Sim.worldThree "minecraft:overworld" (Sim.at_ 0 7 0)
                "minecraft:diamond_block" = true
    /\ forall k, firstDistance Down <= k < dist ->
         isTarget Sim.worldThree "minecraft:overworld"
                  (checkPosAt (Sim.at_ 0 10 0) (offsetOf Down k))
                  "minecraft:diamond_block" = false.
Proof.
  apply (scan_result_is_nearest_match Sim.SimWorld string Sim.sim_host config
           Down Sim.worldThree "minecraft:overworld"%string (Sim.at_ 0 10 0)
           "minecraft:diamond_block"%string (Sim.at_ 0 7 0)).
  reflexivity.
Defined.

(** X2.  A scan that returns nothing has missed nothing: no block of the
    target type lies at any distance within its step budget and height
    bound. *)
Theorem scan_none_means_no_match :
  forall (World Player : Type) (host : Host World Player) (cfg : Config)
         (d : Direction) (w : World) (dimensionName : string)
         (pos : BlockPos) (allowedBlock : string),
    scan_result (scan cfg d w dimensionName pos allowedBlock) = None ->
    forall dist,
      inScan cfg d dimensionName pos dist ->
      isTarget w dimensionName (checkPosAt pos (offsetOf d dist)) allowedBlock
      = false.
Proof.
  intros World Player host cfg d w dimensionName pos allowedBlock Hres dist Hin.
  unfold isTarget. apply negb_false_iff.
  destruct d; cbn [inScan offsetOf] in *; destruct Hin as [Hd Hb].
  - rewrite scan_down_first in Hres. unfold downOffsets in Hres.
    replace (- dist) with (- Z.of_nat (Z.to_nat dist)) by lia.
    apply (firstWith_seq_None w dimensionName pos allowedBlock (stopDown cfg)
             (fun k => - Z.of_nat k) 2 _ (Z.to_nat dist) Hres); [lia|].
    intros i Hi. unfold stopDown. cbn. apply Z.leb_gt. lia.
  - rewrite scan_up_first in Hres. unfold upOffsets in Hres.
    replace (checkPosAt pos dist)
      with (checkPosAt pos (Z.of_nat (Z.to_nat dist))) by (f_equal; lia).
    apply (firstWith_seq_None w dimensionName pos allowedBlock
             (aboveLimit cfg dimensionName) Z.of_nat 1 _ (Z.to_nat dist) Hres);
      [lia|].
    intros i Hi. cbn.
    apply (aboveLimit_mono cfg dimensionName _ (Vector3.y pos + dist));
      [lia | exact Hb].
Qed.

Lemma scan_none_means_no_match_witness :
  isTarget Sim.worldA "minecraft:overworld"
           (checkPosAt (Sim.at_ 0 10 0) (offsetOf Down 3))
           "minecraft:diamond_block" = false.
Proof.
  apply (scan_none_means_no_match Sim.SimWorld string Sim.sim_host Sim.configB
           Down Sim.worldA "minecraft:overworld"%string (Sim.at_ 0 10 0)
           "minecraft:diamond_block"%string).
  - reflexivity.
  - cbn. lia.
Defined.

(** X3.  The positions a scan hands to the block lookup do not depend on
    the blocks: they are the offsets in loop order up to the first
    height beyond the bound, so finding a match does not end the scan,
    and there are at most [maximum] of them. *)
Theorem scan_lookups_ignore_blocks :
  forall (World Player : Type) (host : Host World Player) (cfg : Config)
         (d : Direction) (w : World) (dimensionName : string)
         (pos : BlockPos) (allowedBlock : string),
    lookups (scan cfg d w dimensionName pos allowedBlock)
    = visited (match d with
               | Down => stopDown cfg
               | Up => aboveLimit cfg dimensionName
               end) pos
              (match d with Down => downOffsets cfg | Up => upOffsets cfg end)
    /\ (length (lookups (scan cfg d w dimensionName pos allowedBlock))
        <= Z.to_nat (maximum cfg))%nat
    /\ forall (w' : World) (allowedBlock' : string),
         lookups (scan cfg d w' dimensionName pos allowedBlock')
         = lookups (scan cfg d w dimensionName pos allowedBlock).
Proof.
  intros World Player host cfg d w dimensionName pos allowedBlock.
  split; [apply scan_lookups_visited|]. split.
  - rewrite scan_lookups_visited.
    etransitivity; [apply visited_length | apply offsets_length].
  - intros w' allowedBlock'. rewrite !scan_lookups_visited. reflexivity.
Qed.

(** X4.  In a dimension whose name is none of the three the script
    knows, the upward scan has no height bound: it looks up every offset
    from 1 to [maximum], whatever the height. *)
Theorem unknown_dimension_unbounded :
  forall (World Player : Type) (host : Host World Player) (cfg : Config)
         (w : World) (dimensionName : string) (pos : BlockPos)
         (allowedBlock : string),
    dimensionName <> "minecraft:overworld"%string ->
    dimensionName <> "minecraft:nether"%string ->
    dimensionName <> "minecraft:the_end"%string ->
    lookups (scan cfg Up w dimensionName pos allowedBlock)
    = map (checkPosAt pos) (upOffsets cfg).
Proof.
  intros World Player host cfg w dimensionName pos allowedBlock Ho Hn He.
  rewrite scan_lookups_visited. apply visited_all.
  intros y. unfold aboveLimit.
  apply String.eqb_neq in Ho, Hn, He. rewrite Ho, Hn, He. reflexivity.
Qed.

Lemma unknown_dimension_unbounded_witness :
  lookups (scan config Up (Sim.worldCD "minecraft:moon") "minecraft:moon"
                (Sim.at_ 0 330 0) "minecraft:diamond_block")
  = map (checkPosAt (Sim.at_ 0 330 0)) (upOffsets config).
Proof.
  apply (unknown_dimension_unbounded Sim.SimWorld string Sim.sim_host config
           (Sim.worldCD "minecraft:moon") "minecraft:moon"%string
           (Sim.at_ 0 330 0) "minecraft:diamond_block"%string);
    intros E; discriminate E.
Defined.

(** * More about the handlers *)

Lemma log_nil {World Player : Type} (st : State World Player) : log [] st = st.
Proof. destruct st as [w ps tr]. unfold log. cbn. rewrite app_nil_r. reflexivity. Qed.

Lemma scanDown_stops_first {World Player : Type} `{host : Host World Player}
      (cfg : Config) (w : World) (dimension : string) (pos : BlockPos)
      (allowedBlock : string) (s : Scan) :
  maximum cfg < 2 \/ Vector3.y pos - 2 <= miniLimit cfg ->
  scanDown cfg w dimension pos allowedBlock (downOffsets cfg) s = s.
Proof.
  intros Hedge. unfold downOffsets.
  destruct (Z.to_nat (maximum cfg) - 1)%nat as [|m] eqn:Em; [reflexivity|].
  destruct Hedge as [Hmax | Hlow]; [lia|].
  cbn [seq map scanDown].
  replace (Vector3.y (checkPosAt pos (- Z.of_nat 2)) <=? miniLimit cfg)
    with true; [reflexivity|].
  symmetry. apply Z.leb_le. cbn. lia.
Qed.

Lemma scanUp_stops_first {World Player : Type} `{host : Host World Player}
      (cfg : Config) (w : World) (dimension : string) (pos : BlockPos)
      (allowedBlock dimensionName : string) (s : Scan) :
  maximum cfg < 1 \/ aboveLimit cfg dimensionName (Vector3.y pos + 1) = true ->
  scanUp cfg w dimension pos allowedBlock dimensionName (upOffsets cfg) s = s.
Proof.
  intros Hedge. unfold upOffsets.
  destruct (Z.to_nat (maximum cfg)) as [|m] eqn:Em; [reflexivity|].
  destruct Hedge as [Hmax | Hhigh]; [lia|].
  cbn [seq map scanUp].
  change (Vector3.y (checkPosAt pos (Z.of_nat 1))) with (Vector3.y pos + 1).
  rewrite Hhigh. reflexivity.
Qed.

(** X5.  At the bounds nothing happens.  When the first height a handler
    would check is already at or beyond its bound (the player stands
    within two blocks of the lower bound, or right under the upper bound
    of the dimension), or the step budget is too small for a first step,
    the handler asks the host for no block, calls no teleport and leaves
    the store as it is, whatever the inputs and the world. *)
Theorem nothing_happens_at_the_bounds :
  forall (World Player : Type) (host : Host World Player) (cfg : Config)
         (q : Player) (dimension : string) (pos : BlockPos)
         (allowedBlock r dimensionName : string) (st : State World Player),
    (maximum cfg < 2 \/ Vector3.y pos - 2 <= miniLimit cfg ->
     handleDownTeleport cfg q dimension pos allowedBlock r st = st)
    /\ (maximum cfg < 1
        \/ aboveLimit cfg dimensionName (Vector3.y pos + 1) = true ->
        handleUpTeleport cfg q dimension pos allowedBlock r dimensionName st = st).
Proof.
  intros World Player host cfg q dimension pos allowedBlock r dimensionName st.
  split; intros Hedge.
  - unfold handleDownTeleport.
    destruct (negb _ || _ || _); [reflexivity|].
    rewrite scanDown_stops_first by exact Hedge. cbn. apply log_nil.
  - unfold handleUpTeleport.
    destruct (negb _ || _ || _); [reflexivity|].
    rewrite scanUp_stops_first by exact Hedge. cbn. apply log_nil.
Qed.

Lemma nothing_happens_at_the_bounds_witness :
  handleDownTeleport config "steve"%string "minecraft:overworld"
    (Sim.at_ 0 (-63) 0) "minecraft:diamond_block" "steve"
    (Sim.start Sim.worldA)
  = Sim.start Sim.worldA.
Proof.
  apply (proj1 (nothing_happens_at_the_bounds Sim.SimWorld string Sim.sim_host
                  config "steve"%string "minecraft:overworld"%string
                  (Sim.at_ 0 (-63) 0) "minecraft:diamond_block"%string
                  "steve"%string "minecraft:overworld"%string
                  (Sim.start Sim.worldA))).
  right. cbn. lia.
Defined.







(** * The store *)

Lemma insert_keeps_entry (m : gmap string PlayerState) (k r : string)
      (v : PlayerState) :
  is_Some (m !! r) -> is_Some (<[k:=v]> m !! r).
Proof.
  intros Hr. destruct (decide (k = r)) as [-> | Hne].
  - rewrite lookup_insert_eq. eauto.
  - rewrite lookup_insert_ne by exact Hne. exact Hr.
Qed.

Section StoreFacts.
Context {World Player : Type} `{host : Host World Player}.
Variable cfg : Config.
#[local] Abbreviation State := (State World Player).

Lemma store_step_refl (r : string) (st : State) : store_step r st st.
Proof. split; auto. Qed.

Lemma store_step_trans (r : string) (st1 st2 st3 : State) :
  store_step r st1 st2 -> store_step r st2 st3 -> store_step r st1 st3.
Proof.
  intros [K1 F1] [K2 F2]. split.
  - intros k Hk. apply K2, K1, Hk.
  - intros k Hne. rewrite F2, F1 by exact Hne. reflexivity.
Qed.

Lemma store_step_insert (r : string) (v : PlayerState) (st st' : State) :
  playerStates st' = <[r:=v]> (playerStates st) -> store_step r st st'.
Proof.
  intros E. split; intros k Hk; rewrite E.
  - apply insert_keeps_entry, Hk.
  - apply lookup_insert_ne. congruence.
Qed.

Lemma store_step_same (r : string) (st st' : State) :
  playerStates st' = playerStates st -> store_step r st st'.
Proof. intros E. split; intros k Hk; rewrite E; auto. Qed.

Lemma store_step_getPlayerState (r : string) (st : State) :
  store_step r st (getPlayerState r st).
Proof.
  unfold getPlayerState. destruct (playerStates st !! r);
    [apply store_step_refl | eapply store_step_insert; reflexivity].
Qed.

Lemma store_step_set_down (r : string) (b : bool) (st : State) :
  store_step r st (set_hasTeleportedDown r b st).
Proof. eapply store_step_insert. reflexivity. Qed.

Lemma store_step_set_up (r : string) (b : bool) (st : State) :
  store_step r st (set_hasTeleportedUp r b st).
Proof. eapply store_step_insert. reflexivity. Qed.

Lemma store_step_reset (r : string) (q : Player) (st : State) :
  store_step r st (resetPlayerState r q st).
Proof.
  unfold resetPlayerState.
  destruct (negb (isSneaking (world st) q)).
  - eapply store_step_trans; [apply store_step_set_down|].
    destruct (negb (isJumping _ q));
      [apply store_step_set_up | apply store_step_refl].
  - destruct (negb (isJumping _ q));
      [apply store_step_set_up | apply store_step_refl].
Qed.

Lemma store_step_handleDown (q : Player) (dimension : string) (pos : BlockPos)
      (allowedBlock r : string) (st : State) :
  store_step r st (handleDownTeleport cfg q dimension pos allowedBlock r st).
Proof.
  destruct (handleDownTeleport_cases cfg q dimension pos allowedBlock r st)
    as [[_ ->]|[(_ & _ & ->)|(_ & b & _ & ->)]].
  - apply store_step_refl.
  - apply store_step_same. reflexivity.
  - eapply store_step_insert. reflexivity.
Qed.

Lemma store_step_handleUp (q : Player) (dimension : string) (pos : BlockPos)
      (allowedBlock r dimensionName : string) (st : State) :
  store_step r st (handleUpTeleport cfg q dimension pos allowedBlock r
                                    dimensionName st).
Proof.
  destruct (handleUpTeleport_cases cfg q dimension pos allowedBlock r
                                   dimensionName st)
    as [[_ ->]|[(_ & _ & ->)|(_ & b & _ & ->)]].
  - apply store_step_refl.
  - apply store_step_same. reflexivity.
  - eapply store_step_insert. reflexivity.
Qed.

Lemma store_step_iteration (dimensionName : string) (q : Player)
      (allowedBlock : string) (st : State) :
  store_step (player_id q) st
             (processBlockType cfg dimensionName q allowedBlock st).
Proof.
  unfold processBlockType.
  set (pos := floorPos (location (world st) q)).
  set (st2 := resetPlayerState (player_id q) q (getPlayerState (player_id q) st)).
  assert (H2 : store_step (player_id q) st st2).
  { eapply store_step_trans;
      [apply store_step_getPlayerState | apply store_step_reset]. }
  set (st3 := log [EvGetBlock dimensionName (belowPosOf pos)] st2).
  assert (H3 : store_step (player_id q) st st3).
  { eapply store_step_trans; [exact H2 | apply store_step_same; reflexivity]. }
  destruct (notTarget _ _); [exact H3|].
  eapply store_step_trans; [|apply store_step_handleUp].
  eapply store_step_trans; [exact H3 | apply store_step_handleDown].
Qed.

Lemma iteration_creates_entry (dimensionName : string) (q : Player)
      (allowedBlock : string) (st : State) :
  is_Some (playerStates (processBlockType cfg dimensionName q allowedBlock st)
             !! player_id q).
Proof.
  unfold processBlockType.
  set (pos := floorPos (location (world st) q)).
  set (st1 := getPlayerState (player_id q) st).
  assert (H1 : is_Some (playerStates st1 !! player_id q)).
  { unfold st1, getPlayerState.
    destruct (playerStates st !! player_id q) eqn:E; cbn;
      [rewrite E | rewrite lookup_insert_eq]; eauto. }
  set (st3 := log _ (resetPlayerState (player_id q) q st1)).
  assert (H3 : is_Some (playerStates st3 !! player_id q)).
  { apply (proj1 (store_step_reset (player_id q) q st1)), H1. }
  destruct (notTarget _ _); [exact H3|].
  apply (proj1 (store_step_handleUp _ _ _ _ _ _ _)).
  apply (proj1 (store_step_handleDown _ _ _ _ _ _)). exact H3.
Qed.

Lemma own_events_refl (q : Player) (st : State) : own_events q st st.
Proof.
  exists []. split; [unfold extends_by; rewrite app_nil_r; reflexivity|].
  intros d q' t [].
Qed.

Lemma own_events_trans (q : Player) (st1 st2 st3 : State) :
  own_events q st1 st2 -> own_events q st2 st3 -> own_events q st1 st3.
Proof.
  intros (e1 & E1 & O1) (e2 & E2 & O2). exists (e1 ++ e2). split.
  - unfold extends_by in *. rewrite E2, E1, app_assoc. reflexivity.
  - intros d q' t Hin. apply List.in_app_iff in Hin as [Hin | Hin]; eauto.
Qed.

Lemma own_events_lookups (q : Player) (dimension : string) (l : list BlockPos)
      (st : State) :
  own_events q st (log (map (EvGetBlock dimension) l) st).
Proof.
  exists (map (EvGetBlock dimension) l). split; [reflexivity|].
  intros d q' t Hin. apply List.in_map_iff in Hin as (c & [=] & _).
Qed.

Lemma own_events_teleport (q : Player) (d : Direction) (t : Location)
      (st st' : State) :
  trace st' = trace st ++ [EvTeleport d q t] -> own_events q st st'.
Proof.
  intros E. exists [EvTeleport d q t]. split; [exact E|].
  intros d' q' t' [[= _ <- _] | []]. reflexivity.
Qed.

Lemma own_events_handleDown (q : Player) (dimension : string) (pos : BlockPos)
      (allowedBlock r : string) (st : State) :
  own_events q st (handleDownTeleport cfg q dimension pos allowedBlock r st).
Proof.
  destruct (handleDownTeleport_cases cfg q dimension pos allowedBlock r st)
    as [[_ ->]|[(_ & _ & ->)|(_ & b & _ & ->)]].
  - apply own_events_refl.
  - apply own_events_lookups.
  - eapply own_events_trans; [apply own_events_lookups|].
    eapply own_events_teleport. reflexivity.
Qed.

Lemma own_events_handleUp (q : Player) (dimension : string) (pos : BlockPos)
      (allowedBlock r dimensionName : string) (st : State) :
  own_events q st (handleUpTeleport cfg q dimension pos allowedBlock r
                                    dimensionName st).
Proof.
  destruct (handleUpTeleport_cases cfg q dimension pos allowedBlock r
                                   dimensionName st)
    as [[_ ->]|[(_ & _ & ->)|(_ & b & _ & ->)]].
  - apply own_events_refl.
  - apply own_events_lookups.
  - eapply own_events_trans; [apply own_events_lookups|].
    eapply own_events_teleport. reflexivity.
Qed.

Lemma own_events_iteration (dimensionName : string) (q : Player)
      (allowedBlock : string) (st : State) :
  own_events q st (processBlockType cfg dimensionName q allowedBlock st).
Proof.
  unfold processBlockType.
  set (pos := floorPos (location (world st) q)).
  set (st2 := resetPlayerState (player_id q) q (getPlayerState (player_id q) st)).
  set (st3 := log [EvGetBlock dimensionName (belowPosOf pos)] st2).
  assert (H3 : own_events q st st3).
  { exists [EvGetBlock dimensionName (belowPosOf pos)]. split.
    - unfold extends_by, st3, st2. cbn.
      rewrite trace_reset, trace_getPlayerState. reflexivity.
    - intros d q' t [[=] | []]. }
  destruct (notTarget _ _); [exact H3|].
  eapply own_events_trans; [|apply own_events_handleUp].
  eapply own_events_trans; [exact H3 | apply own_events_handleDown].
Qed.

(** A property of the states reached from [st] is kept by the pass over
    one player when every iteration of that player keeps it. *)
Lemma processPlayer_preserves_for (dimensionName : string) (q : Player)
      (I : State -> Prop) :
  (forall allowedBlock st,
      I st -> I (processBlockType cfg dimensionName q allowedBlock st)) ->
  forall st, I st -> I (processPlayer cfg dimensionName q st).
Proof.
  intros Hstep. unfold processPlayer.
  induction allowedBlocks as [|ab l IH]; intros st Hst; cbn; [exact Hst|].
  apply IH, Hstep, Hst.
Qed.

End StoreFacts.

Section StorePasses.
Context {World Player : Type} `{host : Host World Player}.
Variable cfg : Config.
#[local] Abbreviation State := (State World Player).

Lemma iterations_keep_entry (dimensionName : string) (q : Player) (k : string)
      (l : list string) (st : State) :
  is_Some (playerStates st !! k) ->
  is_Some (playerStates
             (fold_left (fun st allowedBlock =>
                           processBlockType cfg dimensionName q allowedBlock st)
                        l st) !! k).
Proof.
  revert st. induction l as [|ab l IH]; intros st Hk; cbn; [exact Hk|].
  apply IH. apply (proj1 (store_step_iteration cfg dimensionName q ab st)), Hk.
Qed.

Lemma processPlayer_creates_entry (dimensionName : string) (q : Player)
      (st : State) :
  is_Some (playerStates (processPlayer cfg dimensionName q st) !! player_id q).
Proof.
  unfold processPlayer, allowedBlocks. cbn [fold_left].
  do 6 apply (proj1 (store_step_iteration cfg _ _ _ _)).
  apply iteration_creates_entry.
Qed.

Lemma processPlayer_store_step (dimensionName : string) (q : Player) (st : State) :
  store_step (player_id q) st (processPlayer cfg dimensionName q st).
Proof.
  apply (processPlayer_preserves_for cfg dimensionName q
           (store_step (player_id q) st)).
  - intros ab st' Hst'. eapply store_step_trans;
      [exact Hst' | apply store_step_iteration].
  - apply store_step_refl.
Qed.

Lemma processPlayer_own_events (dimensionName : string) (q : Player) (st : State) :
  own_events q st (processPlayer cfg dimensionName q st).
Proof.
  apply (processPlayer_preserves_for cfg dimensionName q (own_events q st)).
  - intros ab st' Hst'. eapply own_events_trans;
      [exact Hst' | apply own_events_iteration].
  - apply own_events_refl.
Qed.

Lemma players_keep_entry (dimensionName : string) (k : string)
      (l : list Player) (st : State) :
  is_Some (playerStates st !! k) ->
  is_Some (playerStates
             (fold_left (fun st player => processPlayer cfg dimensionName player st)
                        l st) !! k).
Proof.
  revert st. induction l as [|q l IH]; intros st Hk; cbn; [exact Hk|].
  apply IH. apply (proj1 (processPlayer_store_step dimensionName q st)), Hk.
Qed.
End StorePasses.

(** X7.  Get or create.  [getPlayerState] never overwrites a record: a
    store that has an entry for the id comes back as it is, a store
    that has none gets the record with both flags false under that id
    and nothing else changes.  Afterwards the entry exists, so a second
    call changes nothing. *)
Theorem getPlayerState_get_or_create :
  forall (World Player : Type) (playerId : string) (st : State World Player),
    (forall ps, playerStates st !! playerId = Some ps ->
                getPlayerState playerId st = st)
    /\ (playerStates st !! playerId = None ->
        playerStates (getPlayerState playerId st)
        = <[playerId := {| hasTeleportedDown := false;
                           hasTeleportedUp := false |}]> (playerStates st))
    /\ is_Some (playerStates (getPlayerState playerId st) !! playerId)
    /\ (forall k, k <> playerId ->
          playerStates (getPlayerState playerId st) !! k = playerStates st !! k)
    /\ getPlayerState playerId (getPlayerState playerId st)
       = getPlayerState playerId st.
Proof.
  intros World Player playerId st.
  destruct (playerStates st !! playerId) as [ps0|] eqn:E.
  - assert (G : getPlayerState playerId st = st)
      by (unfold getPlayerState; rewrite E; reflexivity).
    rewrite !G.
    split; [reflexivity|]. split; [intros [=]|]. split; [rewrite E; eauto|].
    split; reflexivity.
  - assert (G : getPlayerState playerId st
                = {| world := world st;
                     playerStates :=
                       <[playerId := {| hasTeleportedDown := false;
                                        hasTeleportedUp := false |}]>
                         (playerStates st);
                     trace := trace st |})
      by (unfold getPlayerState; rewrite E; reflexivity).
    rewrite !G.
    split; [intros ps [=]|]. split; [reflexivity|]. cbn [playerStates].
    split; [rewrite lookup_insert_eq; eauto|].
    split; [intros k Hne; apply lookup_insert_ne; congruence|].
    unfold getPlayerState. cbn [playerStates].
    rewrite lookup_insert_eq. reflexivity.
Qed.

Lemma getPlayerState_witness :
  getPlayerState "alex" (Sim.after_teleports "alex" Sim.worldAir)
  = Sim.after_teleports "alex" Sim.worldAir.
Proof.
  apply (proj1 (getPlayerState_get_or_create Sim.SimWorld string "alex"%string
                  (Sim.after_teleports "alex" Sim.worldAir))
               {| hasTeleportedDown := true; hasTeleportedUp := true |}).
  vm_compute. reflexivity.
Defined.

(** X8.  The pass over one player, all allowed block types, touches that
    player only: the records of other ids are not changed, every
    teleport it calls is a teleport of that player, and the player's own
    record exists afterwards. *)
Theorem player_pass_touches_only_its_player :
  forall (World Player : Type) (host : Host World Player) (cfg : Config)
         (dimensionName : string) (q : Player) (st : State World Player),
    (forall k, k <> player_id q ->
       playerStates (processPlayer cfg dimensionName q st) !! k
       = playerStates st !! k)
    /\ is_Some (playerStates (processPlayer cfg dimensionName q st)
                  !! player_id q)
    /\ exists evs,
         extends_by evs st (processPlayer cfg dimensionName q st)
         /\ forall d q' t, In (EvTeleport d q' t) evs -> q' = q.
Proof.
  intros World Player host cfg dimensionName q st. split; [|split].
  - apply (proj2 (processPlayer_store_step cfg dimensionName q st)).
  - apply processPlayer_creates_entry.
  - apply processPlayer_own_events.
Qed.

Lemma player_pass_witness :
  playerStates (processPlayer config "minecraft:overworld" "steve"%string
                  (Sim.after_teleports "alex" Sim.worldA)) !! "alex"%string
  = playerStates (Sim.after_teleports "alex" Sim.worldA) !! "alex"%string.
Proof.
  apply (proj1 (player_pass_touches_only_its_player Sim.SimWorld string
                  Sim.sim_host config "minecraft:overworld"%string
                  "steve"%string (Sim.after_teleports "alex" Sim.worldA))).
  intros E. discriminate E.
Defined.

(** X9.  The store never forgets: an entry that exists is still there
    after any number of ticks, whatever the host does in between; the
    script has no path that removes one. *)
Theorem store_never_forgets :
  forall (World Player : Type) (host : Host World Player) (cfg : Config)
         (ws : list World) (st : State World Player) (k : string),
    is_Some (playerStates st !! k) ->
    is_Some (playerStates (run cfg ws st) !! k).
Proof.
  intros World Player host cfg ws st k.
  apply (run_preserves cfg (fun st' => is_Some (playerStates st' !! k))).
  intros w st' _ Hk.
  apply (tick_preserves cfg (fun st'' => is_Some (playerStates st'' !! k))).
  - intros dn q ab st'' Hk''.
    apply (proj1 (store_step_iteration cfg dn q ab st'')), Hk''.
  - exact Hk.
Qed.

Lemma store_never_forgets_witness :
  is_Some (playerStates
             (run config [Sim.worldA; Sim.worldAir]
                  (Sim.after_teleports "alex" Sim.worldAir)) !! "alex"%string).
Proof.
  apply (store_never_forgets Sim.SimWorld string Sim.sim_host config
           [Sim.worldA; Sim.worldAir] (Sim.after_teleports "alex" Sim.worldAir)
           "alex"%string).
  vm_compute. eauto.
Defined.

(** X10.  Every player the host lists for a dimension has an entry in
    the store once that dimension has been processed, also a player who
    stands on no allowed block and holds no input. *)
Theorem listed_players_get_entries :
  forall (World Player : Type) (host : Host World Player) (cfg : Config)
         (dimensionName : string) (st : State World Player) (q : Player),
    In q (getPlayers (world st) dimensionName) ->
    is_Some (playerStates (processDimension cfg dimensionName st) !! player_id q).
Proof.
  intros World Player host cfg dimensionName st q.
  unfold processDimension.
  generalize (getPlayers (world st) dimensionName). intros l. revert st.
  induction l as [|q0 l IH]; intros st Hin; cbn in *; [contradiction|].
  destruct Hin as [-> | Hin].
  - apply players_keep_entry, processPlayer_creates_entry.
  - apply IH, Hin.
Qed.

Lemma listed_players_witness :
  is_Some (playerStates
             (processDimension config "minecraft:overworld"
                               (Sim.start Sim.worldAir)) !! "alex"%string).
Proof.
  apply (listed_players_get_entries Sim.SimWorld string Sim.sim_host config
           "minecraft:overworld"%string (Sim.start Sim.worldAir) "alex"%string).
  left. reflexivity.
Defined.

(** * More about the tick *)

Section Released.
Context {World Player : Type} `{host : Host World Player}.
Variable cfg : Config.
#[local] Abbreviation State := (State World Player).

Variable p : Player.
Hypothesis Hinj : forall q : Player, player_id q = player_id p -> q = p.
Hypothesis Hstable : forall (w : World) (q : Player) (t : Location),
    isSneaking (teleport w q t) p = isSneaking w p
    /\ isJumping (teleport w q t) p = isJumping w p.

(** [handleDownTeleport] adds no upward teleport and keeps the inputs. *)
Lemma handleDown_adds_no_up (q : Player) (dimension : string) (pos : BlockPos)
      (allowedBlock r : string) (st : State) :
  let st' := handleDownTeleport cfg q dimension pos allowedBlock r st in
  count_events (isTeleportOfDir Up (player_id p)) (trace st')
  = count_events (isTeleportOfDir Up (player_id p)) (trace st)
  /\ isSneaking (world st') p = isSneaking (world st) p
  /\ isJumping (world st') p = isJumping (world st) p.
Proof.
  cbn zeta.
  destruct (handleDownTeleport_cases cfg q dimension pos allowedBlock r st)
    as [[_ ->]|[(_ & _ & ->)|(_ & b & _ & ->)]];
    cbn [world trace set_hasTeleportedDown do_teleport log];
    rewrite ?count_events_app,
      ?(count_lookups p _ (isTeleportOfDir_isTeleportOf Up (player_id p)));
    [auto | split; [lia | auto] |].
  destruct (Hstable (world st) q (landing b)) as [-> ->].
  cbn [count_events isTeleportOfDir direction_eqb andb]. split; [lia | auto].
Qed.

(** [handleUpTeleport] adds no downward teleport and keeps the inputs. *)
Lemma handleUp_adds_no_down (q : Player) (dimension : string) (pos : BlockPos)
      (allowedBlock r dimensionName : string) (st : State) :
  let st' := handleUpTeleport cfg q dimension pos allowedBlock r dimensionName st in
  count_events (isTeleportOfDir Down (player_id p)) (trace st')
  = count_events (isTeleportOfDir Down (player_id p)) (trace st)
  /\ isSneaking (world st') p = isSneaking (world st) p
  /\ isJumping (world st') p = isJumping (world st) p.
Proof.
  cbn zeta.
  destruct (handleUpTeleport_cases cfg q dimension pos allowedBlock r
                                   dimensionName st)
    as [[_ ->]|[(_ & _ & ->)|(_ & b & _ & ->)]];
    cbn [world trace set_hasTeleportedUp do_teleport log];
    rewrite ?count_events_app,
      ?(count_lookups p _ (isTeleportOfDir_isTeleportOf Down (player_id p)));
    [auto | split; [lia | auto] |].
  destruct (Hstable (world st) q (landing b)) as [-> ->].
  cbn [count_events isTeleportOfDir direction_eqb andb]. split; [lia | auto].
Qed.

(** An iteration of [p] while the input of [d] is not held adds no
    teleport in direction [d]. *)
Lemma released_iteration (d : Direction) (dimensionName allowedBlock : string)
      (st : State) :
  input_of d (world st) p = false ->
  let st' := processBlockType cfg dimensionName p allowedBlock st in
  input_of d (world st') p = false
  /\ count_events (isTeleportOfDir d (player_id p)) (trace st')
     = count_events (isTeleportOfDir d (player_id p)) (trace st).
Proof.
  intros Hrel. cbn zeta. unfold processBlockType.
  set (pos := floorPos (location (world st) p)).
  set (st2 := resetPlayerState (player_id p) p (getPlayerState (player_id p) st)).
  set (st3 := log [EvGetBlock dimensionName (belowPosOf pos)] st2).
  assert (Hw3 : world st3 = world st).
  { unfold st3, st2. cbn. rewrite world_reset, world_getPlayerState. reflexivity. }
  assert (Hc3 : forall d', count_events (isTeleportOfDir d' (player_id p)) (trace st3)
                = count_events (isTeleportOfDir d' (player_id p)) (trace st)).
  { intros d'. unfold st3, st2. cbn.
    rewrite trace_reset, trace_getPlayerState, count_events_app. cbn. lia. }
  destruct (notTarget _ _); [rewrite Hw3; auto|].
  destruct d; cbn [input_of] in *.
  - (* down: its gate is closed *)
    assert (E : handleDownTeleport cfg p dimensionName pos allowedBlock
                                   (player_id p) st3 = st3).
    { unfold handleDownTeleport. rewrite Hw3, Hrel. reflexivity. }
    rewrite E.
    destruct (handleUp_adds_no_down p dimensionName pos allowedBlock
                (player_id p) dimensionName st3) as (Hc & Hs & _).
    rewrite Hs, Hc, Hw3, Hc3. auto.
  - (* up: down may fire first, the gate of up stays closed *)
    destruct (handleDown_adds_no_up p dimensionName pos allowedBlock
                (player_id p) st3) as (Hc & _ & Hj).
    set (st4 := handleDownTeleport cfg p dimensionName pos allowedBlock
                                   (player_id p) st3) in *.
    assert (Hj4 : isJumping (world st4) p = false)
      by (rewrite Hj, Hw3; exact Hrel).
    assert (E : handleUpTeleport cfg p dimensionName pos allowedBlock
                                 (player_id p) dimensionName st4 = st4).
    { unfold handleUpTeleport. rewrite Hj4. reflexivity. }
    rewrite E, Hc, Hc3. auto.
Qed.

Lemma released_step (d : Direction) (c : nat) (dimensionName : string)
      (q : Player) (allowedBlock : string) (st : State) :
  input_of d (world st) p = false
  /\ (count_events (isTeleportOfDir d (player_id p)) (trace st) <= c)%nat ->
  input_of d (world (processBlockType cfg dimensionName q allowedBlock st)) p
  = false
  /\ (count_events (isTeleportOfDir d (player_id p))
                   (trace (processBlockType cfg dimensionName q allowedBlock st))
      <= c)%nat.
Proof.
  intros [Hrel Hc].
  destruct (decide (player_id q = player_id p)) as [E | Hne].
  - apply Hinj in E. subst q.
    destruct (released_iteration d dimensionName allowedBlock st Hrel)
      as [Hrel' Hc'].
    split; [exact Hrel' | lia].
  - pose proof (view_other cfg p (isTeleportOfDir d (player_id p))
                  (isTeleportOfDir_isTeleportOf d (player_id p)) Hstable
                  q dimensionName allowedBlock st Hne) as Hv.
    unfold view in Hv. injection Hv as Hs Hj _ Hn.
    rewrite Hn. split; [|exact Hc].
    destruct d; cbn [input_of] in *; congruence.
Qed.
End Released.

(** X11.  A direction needs its input.  In a tick that starts with the
    input of a direction not held by a player (not sneaking for down,
    not jumping for up), that direction does not teleport the player,
    whatever the flags in the store and the blocks of the world. *)
Theorem direction_needs_its_input :
  forall (World Player : Type) (host : Host World Player) (cfg : Config)
         (p : Player) (d : Direction) (st : State World Player),
    (forall q : Player, player_id q = player_id p -> q = p) ->
    (forall (w : World) (q : Player) (t : Location),
        isSneaking (teleport w q t) p = isSneaking w p
        /\ isJumping (teleport w q t) p = isJumping w p) ->
    input_of d (world st) p = false ->
    exists evs,
      extends_by evs st (tick cfg st)
      /\ count_events (isTeleportOfDir d (player_id p)) evs = O.
Proof.
  intros World Player host cfg p d st Hinj Hstable Hrel.
  destruct (extends_tick cfg st) as [evs Hevs]. exists evs.
  split; [exact Hevs|].
  apply Nat.le_0_r.
  apply (count_new (isTeleportOfDir d (player_id p)) evs st (tick cfg st));
    [exact Hevs|].
  rewrite Nat.add_0_r.
  apply (tick_preserves cfg
           (fun st' =>
              input_of d (world st') p = false
              /\ (count_events (isTeleportOfDir d (player_id p)) (trace st')
                  <= count_events (isTeleportOfDir d (player_id p)) (trace st))%nat)).
  - intros dn q ab st' Hst'. apply released_step; assumption.
  - split; [exact Hrel | lia].
Qed.

Lemma direction_needs_its_input_witness :
  exists evs,
    extends_by evs (Sim.start (Sim.worldCD "minecraft:overworld"))
               (tick config (Sim.start (Sim.worldCD "minecraft:overworld")))
    /\ count_events (isTeleportOfDir Down "steve") evs = O.
Proof.
  apply (direction_needs_its_input Sim.SimWorld string Sim.sim_host config
           "steve"%string Down (Sim.start (Sim.worldCD "minecraft:overworld"))).
  - intros q. apply sim_id_inj.
  - apply sim_inputs_stable.
  - reflexivity.
Defined.

Lemma stateOf_frame {World Player : Type} (r k : string)
      (st st' : State World Player) :
  store_step r st st' -> k <> r -> stateOf st' k = stateOf st k.
Proof. intros [_ Hf] Hne. unfold stateOf. rewrite Hf by exact Hne. reflexivity. Qed.

Lemma reset_keeps_not_both (a b s j : bool) :
  a && b = false -> (a && s) && (b && j) = false.
Proof. destruct a, b, s, j; cbn; auto. Qed.

Lemma never_both_step {World Player : Type} `{host : Host World Player}
      (cfg : Config) (k : string) (dimensionName : string) (q : Player)
      (allowedBlock : string) (st : State World Player) :
  (forall (w : World) (q' : Player) (t : Location),
      isSneaking (teleport w q' t) q = isSneaking w q
      /\ isJumping (teleport w q' t) q = isJumping w q) ->
  hasTeleportedDown (stateOf st k) && hasTeleportedUp (stateOf st k) = false ->
  hasTeleportedDown
    (stateOf (processBlockType cfg dimensionName q allowedBlock st) k)
  && hasTeleportedUp
       (stateOf (processBlockType cfg dimensionName q allowedBlock st) k)
  = false.
Proof.
  intros Hstable Hnb.
  destruct (decide (k = player_id q)) as [-> | Hne].
  - pose proof (view_own cfg q (isTeleportOf (player_id q)) (fun e He => He)
                  Hstable dimensionName allowedBlock st) as Hown.
    cbn zeta in Hown.
    destruct Hown as [Hv|[(Hs & Hj & _ & n' & _ & Hv)|(Hj & Hs & _ & n' & _ & Hv)]];
      apply view_inv in Hv as (_ & _ & -> & _);
      cbn [hasTeleportedDown hasTeleportedUp];
      rewrite ?Hs, ?Hj, ?andb_false_r; try reflexivity.
    apply reset_keeps_not_both, Hnb.
  - rewrite (stateOf_frame (player_id q) k st); [exact Hnb | | exact Hne].
    apply store_step_iteration.
Qed.

(** X12.  The two cooldown flags of a record are never both set: if no
    record of the store has both, none has after any number of ticks,
    in a host whose teleport leaves the inputs alone.  In particular
    the script started with the empty store never produces such a
    record. *)
Theorem flags_never_both_set :
  forall (World Player : Type) (host : Host World Player) (cfg : Config)
         (ws : list World) (st : State World Player),
    (forall (p : Player) (w : World) (q : Player) (t : Location),
        isSneaking (teleport w q t) p = isSneaking w p
        /\ isJumping (teleport w q t) p = isJumping w p) ->
    (forall k, hasTeleportedDown (stateOf st k)
               && hasTeleportedUp (stateOf st k) = false) ->
    forall k, hasTeleportedDown (stateOf (run cfg ws st) k)
              && hasTeleportedUp (stateOf (run cfg ws st) k) = false.
Proof.
  intros World Player host cfg ws st Hstable Hinit k.
  apply (run_preserves cfg
           (fun st' => hasTeleportedDown (stateOf st' k)
                       && hasTeleportedUp (stateOf st' k) = false)).
  - intros w st' _ Hst'.
    apply (tick_preserves cfg
             (fun st'' => hasTeleportedDown (stateOf st'' k)
                          && hasTeleportedUp (stateOf st'' k) = false)).
    + intros dn q ab st'' Hst''. apply never_both_step; [apply Hstable | exact Hst''].
    + exact Hst'.
  - apply Hinit.
Qed.

Lemma flags_never_both_set_witness :
  hasTeleportedDown
    (stateOf (run config [Sim.worldA; Sim.worldCD "minecraft:overworld"]
                  (Sim.start Sim.worldA)) "steve")
  && hasTeleportedUp
       (stateOf (run config [Sim.worldA; Sim.worldCD "minecraft:overworld"]
                     (Sim.start Sim.worldA)) "steve")
  = false.
Proof.
  apply (flags_never_both_set Sim.SimWorld string Sim.sim_host config
           [Sim.worldA; Sim.worldCD "minecraft:overworld"] (Sim.start Sim.worldA)
           sim_inputs_stable).
  intros k. reflexivity.
Defined.

(** X13.  A tick in which the host lists no player for the dimensions of
    the configuration changes nothing: no host call, no store change.
    Players of other dimensions are never looked at. *)
Theorem tick_without_players :
  forall (World Player : Type) (host : Host World Player) (cfg : Config)
         (st : State World Player),
    (forall dimensionName, In dimensionName (dimensions cfg) ->
                           getPlayers (world st) dimensionName = []) ->
    tick cfg st = st.
Proof.
  intros World Player host cfg st. unfold tick.
  induction (dimensions cfg) as [|dn l IH]; intros Hnone; cbn; [reflexivity|].
  assert (E : processDimension cfg dn st = st).
  { unfold processDimension. rewrite (Hnone dn) by (left; reflexivity).
    reflexivity. }
  rewrite E. apply IH. intros dn' Hin. apply Hnone. right. exact Hin.
Qed.

Lemma tick_without_players_witness :
  tick config (Sim.start (Sim.worldCD "minecraft:moon"))
  = Sim.start (Sim.worldCD "minecraft:moon").
Proof.
  apply (tick_without_players Sim.SimWorld string Sim.sim_host config
           (Sim.start (Sim.worldCD "minecraft:moon"))).
  intros dn Hin. cbn in Hin.
  destruct Hin as [<- | [<- | [<- | []]]]; reflexivity.
Defined.

Lemma handleUp_keeps_down_flag {World Player : Type} `{host : Host World Player}
      (cfg : Config) (q : Player) (dimension : string) (pos : BlockPos)
      (allowedBlock r dimensionName : string) (st : State World Player)
      (k : string) :
  hasTeleportedDown
    (stateOf (handleUpTeleport cfg q dimension pos allowedBlock r dimensionName st) k)
  = hasTeleportedDown (stateOf st k).
Proof.
  destruct (handleUpTeleport_cases cfg q dimension pos allowedBlock r
                                   dimensionName st)
    as [[_ ->]|[(_ & _ & ->)|(_ & b & _ & ->)]]; try reflexivity.
  rewrite stateOf_set_up. destruct (decide (r = k)) as [-> | Hne]; reflexivity.
Qed.

Lemma handleUp_appends {World Player : Type} `{host : Host World Player}
      (cfg : Config) (q : Player) (dimension : string) (pos : BlockPos)
      (allowedBlock r dimensionName : string) (st : State World Player) :
  exists evs,
    trace (handleUpTeleport cfg q dimension pos allowedBlock r dimensionName st)
    = trace st ++ evs.
Proof.
  apply (extends_handleUp cfg q dimension pos allowedBlock r dimensionName st st).
  exists []. unfold extends_by. rewrite app_nil_r. reflexivity.
Qed.

(** X14.  An armed player is teleported.  When a player stands on a
    block of the allowed type, holds the input of a direction and not
    the other, has the flag of that direction clear, and the nearest
    block of the same type in that direction lies within the step
    budget and the height bound, the iteration calls the teleport to the
    top of that block and sets the flag of the direction. *)
Theorem armed_player_is_teleported :
  forall (World Player : Type) (host : Host World Player) (cfg : Config)
         (d : Direction) (dimensionName : string) (q : Player)
         (allowedBlock : string) (st : State World Player) (d1 : Z),
    let pos := floorPos (location (world st) q) in
    notTarget (getBlock (world st) dimensionName (belowPosOf pos)) allowedBlock
    = false ->
    input_of d (world st) q = true ->
    input_of (match d with Down => Up | Up => Down end) (world st) q = false ->
    flag_of d (stateOf st (player_id q)) = false ->
    inScan cfg d dimensionName pos d1 ->
    isTarget (world st) dimensionName (checkPosAt pos (offsetOf d d1)) allowedBlock
    = true ->
    (forall k, firstDistance d <= k < d1 ->
       isTarget (world st) dimensionName (checkPosAt pos (offsetOf d k))
                allowedBlock = false) ->
    let st' := processBlockType cfg dimensionName q allowedBlock st in
    (exists evs,
        extends_by evs st st'
        /\ In (EvTeleport d q (landing (checkPosAt pos (offsetOf d d1)))) evs)
    /\ flag_of d (stateOf st' (player_id q)) = true.
Proof.
  intros World Player host cfg d dimensionName q allowedBlock st d1 pos
         Hbelow Hheld Hother Hflag Hin Hmatch Hnearer st'.
  pose proof (scan_nearest cfg (world st) dimensionName pos allowedBlock d d1
                           Hin Hmatch Hnearer) as Hscan.
  unfold st', processBlockType. fold pos.
  set (st2 := resetPlayerState (player_id q) q (getPlayerState (player_id q) st)).
  set (st3 := log [EvGetBlock dimensionName (belowPosOf pos)] st2).
  assert (Hw2 : world st2 = world st)
    by (unfold st2; rewrite world_reset, world_getPlayerState; reflexivity).
  assert (Hw3 : world st3 = world st) by exact Hw2.
  assert (Ht3 : trace st3 = trace st ++ [EvGetBlock dimensionName (belowPosOf pos)]).
  { unfold st3, st2. cbn. rewrite trace_reset, trace_getPlayerState. reflexivity. }
  assert (Hp3 : stateOf st3 (player_id q)
                = {| hasTeleportedDown :=
                       hasTeleportedDown (stateOf st (player_id q))
                       && isSneaking (world st) q;
                     hasTeleportedUp :=
                       hasTeleportedUp (stateOf st (player_id q))
                       && isJumping (world st) q |}).
  { change (stateOf st3 (player_id q)) with (stateOf st2 (player_id q)).
    unfold st2. rewrite stateOf_reset, decide_True by reflexivity.
    rewrite stateOf_getPlayerState, world_getPlayerState. reflexivity. }
  rewrite Hw2, Hbelow.
  destruct d; cbn [input_of flag_of offsetOf scan] in *.
  - (* down *)
    assert (Hopen : downOpen q (player_id q) st3).
    { unfold downOpen. rewrite Hw3, Hp3. cbn. rewrite Hflag. auto. }
    destruct (handleDownTeleport_cases cfg q dimensionName pos allowedBlock
                (player_id q) st3)
      as [[Hno _]|[(_ & Hnone & _)|(_ & b & Hb & Hst4)]].
    + contradiction.
    + rewrite Hw3, Hscan in Hnone. discriminate Hnone.
    + rewrite Hw3, Hscan in Hb. injection Hb as <-.
      set (st4 := handleDownTeleport cfg q dimensionName pos allowedBlock
                                     (player_id q) st3) in *.
      destruct (handleUp_appends cfg q dimensionName pos allowedBlock
                  (player_id q) dimensionName st4) as [e He].
      split.
      * eexists. split.
        -- unfold extends_by. rewrite He, Hst4.
           cbn [trace set_hasTeleportedDown do_teleport log]. rewrite Ht3.
           rewrite <- !app_assoc. reflexivity.
        -- apply List.in_app_iff. right. apply List.in_app_iff. right.
           apply List.in_app_iff. left. left. reflexivity.
      * rewrite handleUp_keeps_down_flag, Hst4.
        rewrite stateOf_set_down, decide_True by reflexivity. reflexivity.
  - (* up: the gate of down is closed *)
    assert (E : handleDownTeleport cfg q dimensionName pos allowedBlock
                                   (player_id q) st3 = st3).
    { unfold handleDownTeleport. rewrite Hw3, Hother. reflexivity. }
    rewrite E.
    assert (Hopen : upOpen q (player_id q) st3).
    { unfold upOpen. rewrite Hw3, Hp3. cbn. rewrite Hflag. auto. }
    destruct (handleUpTeleport_cases cfg q dimensionName pos allowedBlock
                (player_id q) dimensionName st3)
      as [[Hno _]|[(_ & Hnone & _)|(_ & b & Hb & Hst5)]].
    + contradiction.
    + rewrite Hw3, Hscan in Hnone. discriminate Hnone.
    + rewrite Hw3, Hscan in Hb. injection Hb as <-.
      rewrite Hst5. split.
      * eexists. split.
        -- unfold extends_by.
           cbn [trace set_hasTeleportedUp do_teleport log]. rewrite Ht3.
           rewrite <- !app_assoc. reflexivity.
        -- apply List.in_app_iff. right. apply List.in_app_iff. right.
           left. reflexivity.
      * rewrite stateOf_set_up, decide_True by reflexivity. reflexivity.
Qed.

Lemma armed_player_witness :
  (exists evs,
      extends_by evs (Sim.start (Sim.worldCD "minecraft:overworld"))
                 (processBlockType config "minecraft:overworld" "steve"%string
                    "minecraft:diamond_block"
                    (Sim.start (Sim.worldCD "minecraft:overworld")))
      /\ In (EvTeleport Up "steve"%string (landing (Sim.at_ 0 338 0))) evs)
  /\ flag_of Up
       (stateOf (processBlockType config "minecraft:overworld" "steve"%string
                   "minecraft:diamond_block"
                   (Sim.start (Sim.worldCD "minecraft:overworld"))) "steve")
     = true.
Proof.
  apply (armed_player_is_teleported Sim.SimWorld string Sim.sim_host config
           Up "minecraft:overworld"%string "steve"%string
           "minecraft:diamond_block"%string
           (Sim.start (Sim.worldCD "minecraft:overworld")) 8).
  - reflexivity.
  - reflexivity.
  - reflexivity.
  - reflexivity.
  - unfold inScan. split; [cbn; lia | reflexivity].
  - reflexivity.
  - intros k Hk. cbn in Hk.
    assert (Hc : k = 1 \/ k = 2 \/ k = 3 \/ k = 4 \/ k = 5 \/ k = 6 \/ k = 7)
      by lia.
    destruct Hc as [-> | [-> | [-> | [-> | [-> | [-> | ->]]]]]]; reflexivity.
Defined.

Section Justified.
Context {World Player : Type} `{host : Host World Player}.
Variable P : Direction -> Player -> Location -> Prop.

Lemma justified_app (a b : list (Event Player)) :
  (forall d q t, In (EvTeleport d q t) a -> P d q t) ->
  (forall d q t, In (EvTeleport d q t) b -> P d q t) ->
  forall d q t, In (EvTeleport d q t) (a ++ b) -> P d q t.
Proof.
  intros Ha Hb d q t Hin. apply List.in_app_iff in Hin as [Hin | Hin]; eauto.
Qed.

Lemma justified_lookups (dimension : string) (l : list BlockPos) :
  forall d q t, In (EvTeleport d q t) (map (EvGetBlock dimension) l) -> P d q t.
Proof.
  intros d q t Hin. apply List.in_map_iff in Hin as (c & [=] & _).
Qed.

Lemma justified_one (d0 : Direction) (q0 : Player) (t0 : Location) :
  P d0 q0 t0 ->
  forall d q t, In (EvTeleport d q t) [EvTeleport d0 q0 t0] -> P d q t.
Proof. intros H0 d q t [[= <- <- <-] | []]. exact H0. Qed.
End Justified.

Lemma scan_result_matches {World Player : Type} `{host : Host World Player}
      (cfg : Config) (d : Direction) (w : World) (dimensionName : string)
      (pos : BlockPos) (allowedBlock : string) (b : BlockPos) :
  scan_result (scan cfg d w dimensionName pos allowedBlock) = Some b ->
  isTarget w dimensionName b allowedBlock = true.
Proof.
  intros Hres. unfold isTarget. apply negb_true_iff.
  destruct d; [rewrite scan_down_first in Hres | rewrite scan_up_first in Hres];
    apply firstWith_Some in Hres as (y & _ & _ & _ & Hm); exact Hm.
Qed.

(** X15.  Every teleport is justified.  In a host whose teleport leaves
    the player's inputs alone, a teleport called by an iteration is a
    teleport of the iteration's player, who stands on a block of the
    allowed type and holds the input of the direction; it goes to the
    top of the block the scan of that direction returns in the world the
    iteration started from, a block of the same allowed type. *)
Theorem every_teleport_is_justified :
  forall (World Player : Type) (host : Host World Player) (cfg : Config)
         (dimensionName : string) (q : Player) (allowedBlock : string)
         (st : State World Player),
    (forall (w : World) (q' : Player) (t : Location),
        isSneaking (teleport w q' t) q = isSneaking w q
        /\ isJumping (teleport w q' t) q = isJumping w q) ->
    let pos := floorPos (location (world st) q) in
    exists evs,
      extends_by evs st (processBlockType cfg dimensionName q allowedBlock st)
      /\ forall d q' t,
           In (EvTeleport d q' t) evs ->
           q' = q
           /\ notTarget (getBlock (world st) dimensionName (belowPosOf pos))
                        allowedBlock = false
           /\ input_of d (world st) q = true
           /\ exists b,
                scan_result (scan cfg d (world st) dimensionName pos allowedBlock)
                = Some b
                /\ t = landing b
                /\ isTarget (world st) dimensionName b allowedBlock = true.
Proof.
  intros World Player host cfg dimensionName q allowedBlock st Hstable pos.
  unfold processBlockType. fold pos.
  set (st2 := resetPlayerState (player_id q) q (getPlayerState (player_id q) st)).
  set (st3 := log [EvGetBlock dimensionName (belowPosOf pos)] st2).
  assert (Hw2 : world st2 = world st)
    by (unfold st2; rewrite world_reset, world_getPlayerState; reflexivity).
  assert (Hw3 : world st3 = world st) by exact Hw2.
  assert (Ht3 : trace st3 = trace st ++ [EvGetBlock dimensionName (belowPosOf pos)]).
  { unfold st3, st2. cbn. rewrite trace_reset, trace_getPlayerState. reflexivity. }
  rewrite Hw2.
  destruct (notTarget (getBlock (world st) dimensionName (belowPosOf pos))
                      allowedBlock) eqn:Hbelow.
  { eexists. split; [exact Ht3|]. intros d q' t [[=] | []]. }
  set (J := fun (d : Direction) (q' : Player) (t : Location) =>
              q' = q /\ false = false /\ input_of d (world st) q = true
              /\ exists b,
                   scan_result (scan cfg d (world st) dimensionName pos allowedBlock)
                   = Some b
                   /\ t = landing b
                   /\ isTarget (world st) dimensionName b allowedBlock = true).
  assert (J3 : forall d q' t,
             In (EvTeleport d q' t) [EvGetBlock dimensionName (belowPosOf pos)] ->
             J d q' t) by (intros d q' t [[=] | []]).
  destruct (handleDownTeleport_cases cfg q dimensionName pos allowedBlock
              (player_id q) st3)
    as [[_ E4]|[(_ & _ & E4)|((Hs & Hj & _) & b & Hb & E4)]].
  - (* down returned at its gate *)
    rewrite E4.
    destruct (handleUpTeleport_cases cfg q dimensionName pos allowedBlock
                (player_id q) dimensionName st3)
      as [[_ E5]|[(_ & _ & E5)|((Hj5 & _) & b & Hb & E5)]]; rewrite E5.
    + eexists. split; [exact Ht3 | exact J3].
    + eexists. split;
        [unfold extends_by; cbn [trace log]; rewrite Ht3, <- app_assoc; reflexivity|].
      apply justified_app; [exact J3 | apply justified_lookups].
    + eexists. split;
        [unfold extends_by; cbn [trace set_hasTeleportedUp do_teleport log];
         rewrite Ht3, <- !app_assoc; reflexivity|].
      apply justified_app; [exact J3|].
      apply justified_app; [apply justified_lookups|].
      apply justified_one. rewrite Hw3 in Hb, Hj5.
      split; [reflexivity|]. split; [reflexivity|]. split; [exact Hj5|].
      exists b. split; [exact Hb|]. split; [reflexivity|].
      exact (scan_result_matches cfg Up _ _ _ _ _ Hb).
  - (* down scanned and found nothing *)
    rewrite E4.
    set (st4 := log _ st3).
    assert (Hw4 : world st4 = world st) by exact Hw3.
    destruct (handleUpTeleport_cases cfg q dimensionName pos allowedBlock
                (player_id q) dimensionName st4)
      as [[_ E5]|[(_ & _ & E5)|((Hj5 & _) & b & Hb & E5)]]; rewrite E5.
    + eexists. split;
        [unfold extends_by, st4; cbn [trace log]; rewrite Ht3, <- app_assoc;
         reflexivity|].
      apply justified_app; [exact J3 | apply justified_lookups].
    + eexists. split;
        [unfold extends_by, st4; cbn [trace log]; rewrite Ht3, <- !app_assoc;
         reflexivity|].
      apply justified_app; [exact J3|].
      apply justified_app; apply justified_lookups.
    + eexists. split;
        [unfold extends_by, st4;
         cbn [trace set_hasTeleportedUp do_teleport log];
         rewrite Ht3, <- !app_assoc; reflexivity|].
      apply justified_app; [exact J3|].
      apply justified_app; [apply justified_lookups|].
      apply justified_app; [apply justified_lookups|].
      apply justified_one. rewrite Hw4 in Hb, Hj5.
      split; [reflexivity|]. split; [reflexivity|]. split; [exact Hj5|].
      exists b. split; [exact Hb|]. split; [reflexivity|].
      exact (scan_result_matches cfg Up _ _ _ _ _ Hb).
  - (* down fired: the gate of up is closed *)
    rewrite Hw3 in Hs, Hj, Hb.
    assert (E5 : handleUpTeleport cfg q dimensionName pos allowedBlock
                   (player_id q) dimensionName
                   (handleDownTeleport cfg q dimensionName pos allowedBlock
                                       (player_id q) st3)
                 = handleDownTeleport cfg q dimensionName pos allowedBlock
                                      (player_id q) st3).
    { rewrite E4. unfold handleUpTeleport.
      cbn [world set_hasTeleportedDown do_teleport log].
      destruct (Hstable (world st3) q (landing b)) as [_ Hj'].
      rewrite Hj', Hw3, Hj. reflexivity. }
    rewrite E5, E4.
    eexists. split;
      [unfold extends_by; cbn [trace set_hasTeleportedDown do_teleport log];
       rewrite Ht3, <- !app_assoc; reflexivity|].
    apply justified_app; [exact J3|].
    apply justified_app; [apply justified_lookups|].
    apply justified_one.
    split; [reflexivity|]. split; [reflexivity|]. split; [exact Hs|].
    exists b. split; [exact Hb|]. split; [reflexivity|].
    exact (scan_result_matches cfg Down _ _ _ _ _ Hb).
Qed.

Lemma every_teleport_witness :
  exists evs,
    extends_by evs (Sim.start Sim.worldA)
               (processBlockType config "minecraft:overworld" "steve"%string
                  "minecraft:diamond_block" (Sim.start Sim.worldA))
    /\ forall d q' t,
         In (EvTeleport d q' t) evs ->
         q' = "steve"%string
         /\ notTarget (getBlock Sim.worldA "minecraft:overworld"
                         (belowPosOf (floorPos (location Sim.worldA "steve"%string))))
                      "minecraft:diamond_block" = false
         /\ input_of d Sim.worldA "steve"%string = true
         /\ exists b,
              scan_result (scan config d Sim.worldA "minecraft:overworld"
                             (floorPos (location Sim.worldA "steve"%string))
                             "minecraft:diamond_block")
              = Some b
              /\ t = landing b
              /\ isTarget Sim.worldA "minecraft:overworld" b
                          "minecraft:diamond_block" = true.
Proof.
  apply (every_teleport_is_justified Sim.SimWorld string Sim.sim_host config
           "minecraft:overworld"%string "steve"%string
           "minecraft:diamond_block"%string (Sim.start Sim.worldA)
           (sim_inputs_stable "steve"%string)).
Defined.
